(** * restaurant-viewer: the import, normalisation and filtering pipeline of App.js

    A shallow embedding of the logic of [src/App.js]:
    - [pickAndParseExcel], the import handler, with the callback of its
      [rows.map] as [cleanRow];
    - [safeFloat];
    - the [filtered] memo of [TableScreen];
    - the [geocoded] and [filtered] memos and [onMapLayout] of [MapScreen].

    How JavaScript is modelled:
    - values are a tagged union of the primitives a cell or a literal can be;
    - strings are sequences of code units below U+0100 (Rocq's [string]),
      with the white space and the case mapping of that range; the search is
      modelled a second time over text of any script ([Unicode]), where the
      lower-case form of the Greek capital sigma depends on its neighbours,
      and the two models are shown to agree below U+0100;
    - numbers are IEEE-754 binary64 values ([spec_float], precision 53,
      maximal exponent 1024); [parseFloat] and [Number::toString] follow
      ECMA-262, with correct rounding done by the library's [binary_round]
      and [SFdiv];
    - a row is a finite map from header to cell, a missing property reads as
      [undefined];
    - a call that can throw returns a [result]; the React state is passed
      explicitly; the document picker, the file system and the spreadsheet
      library are collaborators given as a record of outcomes. *)

From Stdlib Require Import ZArith NArith Ascii Lia.
From Stdlib Require String DecimalString DecimalNat DecimalN DecimalPos.
From Stdlib Require Import Floats.SpecFloat.
From stdpp Require Import base tactics option list strings gmap.

(** ** JavaScript strings *)

Module JSString.

(** WhiteSpace and LineTerminator code units (ECMA-262, TrimString), restricted
    to the code units the model has: TAB, LF, VT, FF, CR, SP and NBSP. *)
Definition isWhiteSpace (c : ascii) : bool :=
  match c with
  | "009" | "010" | "011" | "012" | "013" | " " | "160" => true
  | _ => false
  end%char.

Definition isDigit (c : ascii) : bool :=
  match c with
  | "0" | "1" | "2" | "3" | "4" | "5" | "6" | "7" | "8" | "9" => true
  | _ => false
  end%char.

(** Simple case mapping of one code unit: A-Z and the Latin-1 capitals
    U+00C0..U+00DE (without the multiplication sign U+00D7) move up by 32.
    Below U+0100 no lower-case form depends on the neighbours of a letter,
    so [toLowerCase] goes letter by letter; this is not so for text beyond
    that range, see [Unicode.toLowerCase]. *)
Definition lowerChar (c : ascii) : ascii :=
  let n := N_of_ascii c in
  if ((65 <=? n) && (n <=? 90) || (192 <=? n) && (n <=? 222) && negb (n =? 215))%N
  then ascii_of_N (n + 32) else c.

Fixpoint toLowerCase (s : string) : string :=
  match s with
  | "" => ""
  | String c s' => String (lowerChar c) (toLowerCase s')
  end.

Fixpoint trimStart (s : string) : string :=
  match s with
  | "" => ""
  | String c s' => if isWhiteSpace c then trimStart s' else s
  end.

Fixpoint trimEnd (s : string) : string :=
  match s with
  | "" => ""
  | String c s' =>
      match trimEnd s' with
      | "" => if isWhiteSpace c then "" else String c ""
      | t => String c t
      end
  end.

Definition trim (s : string) : string := trimEnd (trimStart s).

Fixpoint startsWith (s q : string) {struct q} : bool :=
  match q, s with
  | "", _ => true
  | String _ _, "" => false
  | String c q', String d s' => if decide (c = d) then startsWith s' q' else false
  end.

(** [s.includes(q)] *)
Fixpoint includes (s q : string) : bool :=
  startsWith s q ||
  match s with
  | "" => false
  | String _ s' => includes s' q
  end.

Fixpoint drop (n : nat) (s : string) : string :=
  match n, s with
  | O, _ => s
  | S _, "" => ""
  | S n', String _ s' => drop n' s'
  end.

(** [s.replace(pat, rep)] for a string pattern: only the first occurrence is
    replaced. *)
Fixpoint replace (s pat rep : string) : string :=
  if startsWith s pat then rep +:+ drop (String.length pat) s
  else match s with
       | "" => ""
       | String c s' => String c (replace s' pat rep)
       end.

Fixpoint repeat (c : ascii) (n : nat) : string :=
  match n with
  | O => ""
  | S n' => String c (repeat c n')
  end.

Fixpoint take (n : nat) (s : string) : string :=
  match n, s with
  | O, _ => ""
  | S _, "" => ""
  | S n', String c s' => String c (take n' s')
  end.

(** [q] occurs in [s] as a contiguous block. *)
Definition substring_of (q s : string) : Prop :=
  ∃ pre post, s = pre +:+ q +:+ post.

(** Strings made of white space only. *)
Fixpoint blank (s : string) : Prop :=
  match s with
  | "" => True
  | String c s' => isWhiteSpace c = true ∧ blank s'
  end.

(** A string that begins and ends with a character that is not white space. *)
Definition solid (t : string) : Prop :=
  (∃ c t', t = String c t' ∧ isWhiteSpace c = false) ∧
  (∃ t' c, t = t' +:+ String c "" ∧ isWhiteSpace c = false).

End JSString.

(** ** JavaScript numbers: IEEE-754 binary64 *)

Module JSNumber.
Import JSString.

Definition number : Type := spec_float.

Definition prec : Z := 53.
Definition emax : Z := 1024.

Definition NaN : number := S754_nan.

#[global] Instance number_eq_dec : EqDecision number.
Proof. unfold number. solve_decision. Defined.

(** [Number.isFinite] on a value that is a Number. *)
Definition isFinite (x : number) : bool :=
  match x with
  | S754_zero _ | S754_finite _ _ _ => true
  | S754_infinity _ | S754_nan => false
  end.

(** The Number value of the decimal [(-1)^neg * m * 10^e]: the nearest
    binary64, ties to even, with overflow to an infinity. *)
Definition ofDecimal (neg : bool) (m : N) (e : Z) : number :=
  match m with
  | N0 => S754_zero neg
  | Npos p =>
      if (0 <=? e)%Z
      then binary_round prec emax neg (Z.to_pos (Zpos p * 10 ^ e)) 0
      else SFdiv prec emax (S754_finite neg p 0)
                           (S754_finite false (Z.to_pos (10 ^ (- e))) 0)
  end.

Definition ofNat (n : nat) : number := ofDecimal false (N.of_nat n) 0.

Definition digitValue (c : ascii) : N := (N_of_ascii c - 48)%N.

(** Reads the longest run of decimal digits at the head of [s]: the value
    accumulated on [acc], the number of digits read, and the rest. *)
Fixpoint readDigits (acc : N) (s : string) : N * nat * string :=
  match s with
  | String c s' =>
      if isDigit c
      then let '(v, n, r) := readDigits (acc * 10 + digitValue c) s' in (v, S n, r)
      else (acc, O, s)
  | "" => (acc, O, "")
  end.

Definition readSign (s : string) : bool * string :=
  match s with
  | String "-" t => (true, t)
  | String "+" t => (false, t)
  | _ => (false, s)
  end%char.

(** ExponentPart, when complete: [e] or [E], an optional sign, one digit at
    least.  An incomplete exponent is not part of the parsed prefix. *)
Definition readExponent (s : string) : Z :=
  match s with
  | String c t =>
      if decide (c = "e"%char ∨ c = "E"%char) then
        let '(eneg, t') := readSign t in
        let '(v, n, _) := readDigits 0 t' in
        match n with
        | O => 0%Z
        | S _ => if eneg then (- Z.of_N v)%Z else Z.of_N v
        end
      else 0%Z
  | "" => 0%Z
  end.

(** [parseFloat(s)] for a string [s]: leading white space is skipped, the
    longest prefix that is a StrDecimalLiteral is converted, [NaN] when
    there is none. *)
Definition parseFloat (input : string) : number :=
  let '(neg, s) := readSign (trimStart input) in
  if startsWith s "Infinity" then S754_infinity neg
  else
    let '(ip, ni, s1) := readDigits 0 s in
    let '(m, nf, s2) :=
      match s1 with
      | String "." t => readDigits ip t
      | _ => (ip, O, s1)
      end%char in
    match (ni + nf)%nat with
    | O => NaN
    | S _ => ofDecimal neg m (readExponent s2 - Z.of_nat nf)
    end.

Definition decN (n : N) : string :=
  DecimalString.NilZero.string_of_uint (N.to_uint n).

(** The position [n] with [10^(n-1) <= num/den < 10^n], for [0 < num], [0 < den]. *)
Fixpoint scaleBelow (fuel : nat) (num den : Z) (j : Z) : Z :=
  match fuel with
  | O => j
  | S fuel' => if (den <=? num * 10 ^ j)%Z then j else scaleBelow fuel' num den (j + 1)
  end.

Definition decimalPosition (num den : Z) : Z :=
  if (den <=? num)%Z
  then Z.of_nat (String.length (decN (Z.to_N (num / den))))
  else 1 - scaleBelow (String.length (decN (Z.to_N den))) num den 1.

(** For a given number of digits [k], the [k]-digit decimals just below and
    just above [num/den] (of position [n]) and whichever of them converts
    back to [x], the closer one first, the even one on a tie. *)
Definition shortestAt (x : number) (num den n : Z) (k : Z) (force : bool)
  : option (N * Z) :=
  let sc := (n - k)%Z in
  let A := if (0 <=? sc)%Z then num else (num * 10 ^ (- sc))%Z in
  let B := if (0 <=? sc)%Z then (den * 10 ^ sc)%Z else den in
  let lo := (A / B)%Z in
  let r := (A mod B)%Z in
  let hi := (lo + 1)%Z in
  let cand (s : Z) : N * Z :=
    if (s =? 10 ^ k)%Z then (Z.to_N (10 ^ (k - 1)), (n + 1)%Z) else (Z.to_N s, n) in
  let ok (c : N * Z) : bool :=
    force || bool_decide (ofDecimal false (fst c) (snd c - k) = x) in
  let lo_first :=
    match (2 * r ?= B)%Z with
    | Lt => true
    | Gt => false
    | Eq => Z.even lo
    end in
  let c1 := if lo_first then cand lo else cand hi in
  let c2 := if lo_first then cand hi else cand lo in
  if (r =? 0)%Z then Some (cand lo)
  else if ok c1 then Some c1
  else if ok c2 then Some c2
  else None.

Fixpoint shortestFrom (fuel : nat) (x : number) (num den n : Z) (k : Z)
  : N * Z * Z :=
  match fuel with
  | O => match shortestAt x num den n k true with
         | Some (s, n') => (s, n', k)
         | None => (0%N, n, k)
         end
  | S fuel' =>
      match shortestAt x num den n k false with
      | Some (s, n') => (s, n', k)
      | None => shortestFrom fuel' x num den n (k + 1)
      end
  end.

Definition decZabs (z : Z) : string := decN (Z.abs_N z).

(** Number::toString(x) in radix 10 (ECMA-262 6.1.6.1.20). *)
Definition toString (x : number) : string :=
  match x with
  | S754_nan => "NaN"
  | S754_zero _ => "0"
  | S754_infinity s => if s then "-Infinity" else "Infinity"
  | S754_finite sg m e =>
      let num := if (0 <=? e)%Z then (Zpos m * 2 ^ e)%Z else Zpos m in
      let den := if (0 <=? e)%Z then 1%Z else (2 ^ (- e))%Z in
      let n0 := decimalPosition num den in
      let '(s, n, k) := shortestFrom 16 (S754_finite false m e) num den n0 1 in
      let ds := decN s in
      let body :=
        if ((k <=? n) && (n <=? 21))%Z then
          ds +:+ repeat "0" (Z.to_nat (n - k))
        else if ((0 <? n) && (n <=? 21))%Z then
          take (Z.to_nat n) ds +:+ "." +:+ drop (Z.to_nat n) ds
        else if ((-6 <? n) && (n <=? 0))%Z then
          "0." +:+ repeat "0" (Z.to_nat (- n)) +:+ ds
        else
          let ex := (if (0 <=? n - 1)%Z then "+" else "-") +:+ decZabs (n - 1) in
          if (k =? 1)%Z then ds +:+ "e" +:+ ex
          else take 1 ds +:+ "." +:+ drop 1 ds +:+ "e" +:+ ex
      in if sg then "-" +:+ body else body
  end.

End JSNumber.

(** ** JavaScript values *)

Module JSValue.
Import JSString JSNumber.

(** The primitive values a spreadsheet cell, a missing property or a literal
    of the program can be. *)
Inductive value :=
| VUndefined
| VNull
| VBoolean (b : bool)
| VNumber (n : number)
| VString (s : string).

#[global] Instance value_eq_dec : EqDecision value.
Proof. solve_decision. Defined.

#[global] Instance value_inhabited : Inhabited value := populate VUndefined.

(** ToBoolean: [undefined], [null], [false], [+0], [-0], [NaN] and the empty
    string are falsy. *)
Definition ToBoolean (v : value) : bool :=
  match v with
  | VUndefined | VNull => false
  | VBoolean b => b
  | VNumber (S754_zero _) | VNumber S754_nan => false
  | VNumber _ => true
  | VString "" => false
  | VString _ => true
  end.

(** ToString, as [String(v)] and template literals apply it. *)
Definition ToString (v : value) : string :=
  match v with
  | VUndefined => "undefined"
  | VNull => "null"
  | VBoolean b => if b then "true" else "false"
  | VNumber n => JSNumber.toString n
  | VString s => s
  end.

(** [a || b] *)
Definition or (a b : value) : value := if ToBoolean a then a else b.

Definition isString (v : value) : bool :=
  match v with VString _ => true | _ => false end.

End JSValue.

Infix "∥" := JSValue.or (at level 50, left associativity).

(** Exceptions: a computation returns or throws (the only exception the
    modelled code raises by itself is a [TypeError]). *)
Inductive result (A : Type) :=
| Ok (a : A)
| Throw.
Arguments Ok {A} a.
Arguments Throw {A}.

#[global] Instance result_bind : MBind result := λ A B k m,
  match m with
  | Ok a => k a
  | Throw => Throw
  end.

Import JSString JSNumber JSValue.

(** ** Rows and records *)

(** A row of [XLSX.utils.sheet_to_json]: an object from header to cell. *)
Abbreviation RawRow := (gmap string value).

(** [r.Header]: [undefined] when the row has no such property. *)
Definition get (r : RawRow) (k : string) : value := default VUndefined (r !! k).

Notation "r .[ k ]" := (get r k) (at level 1, left associativity, format "r .[ k ]").

(** The objects built by the [rows.map] callback.  The text fields hold
    whatever value the [||] chain yields. *)
Record CanonicalRecord := {
  id : string;
  name : value;
  address : value;
  city : value;
  state : value;
  country : value;
  lat : option number;
  lng : option number;
  phone : value;
  website : value;
  cuisine : value;
  notes : value;
}.

#[global] Instance CanonicalRecord_eq_dec : EqDecision CanonicalRecord.
Proof. solve_decision. Defined.

(** [safeFloat], App.js lines 70-73; [None] is [null]. *)
Definition safeFloat (v : value) : option number :=
  let n := parseFloat (replace (ToString v) "," ".") in
  if isFinite n then Some n else None.

(** The decimal text of an array index. *)
Definition decNat (idx : nat) : string := decN (N.of_nat idx).

(** The callback of [rows.map], App.js lines 47-60. *)
Definition cleanRow (r : RawRow) (idx : nat) : CanonicalRecord := {|
  id := decNat idx +:+ "-" +:+ ToString (r.["Name"] ∥ r.["name"] ∥ r.["Title"] ∥ VString "");
  name := r.["Name"] ∥ r.["name"] ∥ r.["Title"] ∥ VString "Unnamed";
  address := r.["Address"] ∥ r.["address"] ∥ VString "";
  city := r.["City"] ∥ r.["city"] ∥ VString "";
  state := r.["State"] ∥ r.["state"] ∥ VString "";
  country := r.["Country"] ∥ r.["country"] ∥ VString "";
  lat := safeFloat (r.["Latitude"] ∥ r.["latitude"] ∥ r.["lat"]);
  lng := safeFloat (r.["Longitude"] ∥ r.["longitude"] ∥ r.["lng"]);
  phone := r.["Phone"] ∥ r.["phone"] ∥ VString "";
  website := r.["Website"] ∥ r.["website"] ∥ VString "";
  cuisine := r.["Cuisine"] ∥ r.["cuisine"] ∥ VString "";
  notes := r.["Notes"] ∥ r.["notes"] ∥ VString "";
|}.

(** [rows.map((r, idx) => ...)] *)
Definition cleaned (rows : list RawRow) : list CanonicalRecord :=
  imap (λ idx r, cleanRow r idx) rows.

(** ** Search, App.js lines 93-97 and 147-151 *)

(** [(x || '').toLowerCase().includes(q)]: a value that is not a string has
    no [toLowerCase] method, and the call throws. *)
Definition lowerIncludes (q : string) (x : value) : result bool :=
  match x ∥ VString "" with
  | VString s => Ok (includes (toLowerCase s) q)
  | _ => Throw
  end.

(** [Array.prototype.some] *)
Fixpoint some {A} (f : A → result bool) (l : list A) : result bool :=
  match l with
  | [] => Ok false
  | x :: l' => b ← f x; if b : bool then Ok true else some f l'
  end.

(** [Array.prototype.filter] with a callback that may throw. *)
Fixpoint filterE {A} (f : A → result bool) (l : list A) : result (list A) :=
  match l with
  | [] => Ok []
  | x :: l' =>
      b ← f x;
      rest ← filterE f l';
      Ok (if b : bool then x :: rest else rest)
  end.

Definition searchFields (r : CanonicalRecord) : list value :=
  [name r; city r; cuisine r; state r; country r].

(** The [filtered] memo of [TableScreen]. *)
Definition TableScreen_filtered (data : list CanonicalRecord) (search : string)
  : result (list CanonicalRecord) :=
  let q := toLowerCase (trim search) in
  if bool_decide (q = "") then Ok data
  else filterE (λ r, some (lowerIncludes q) [name r; city r; cuisine r; state r; country r]) data.

(** ** The map screen, App.js lines 145-161 *)

(** [Number.isFinite(x)] for a field that is a number or [null]. *)
Definition Number_isFinite (x : option number) : bool :=
  match x with
  | Some n => isFinite n
  | None => false
  end.

Definition MapScreen_geocoded (data : list CanonicalRecord) : list CanonicalRecord :=
  List.filter (λ d, Number_isFinite (lat d) && Number_isFinite (lng d)) data.

Definition MapScreen_filtered (data : list CanonicalRecord) (search : string)
  : result (list CanonicalRecord) :=
  let geocoded := MapScreen_geocoded data in
  let q := toLowerCase (trim search) in
  if bool_decide (q = "") then Ok geocoded
  else filterE (λ r, some (lowerIncludes q) [name r; city r; cuisine r; state r; country r]) geocoded.

Record LatLng := { latitude : option number; longitude : option number }.

Record Camera := { center : option LatLng; zoom : Z }.

Record EdgePadding := { top : Z; right : Z; bottom : Z; left : Z }.

(** The calls [onMapLayout] makes on the map. *)
Inductive MapCall :=
| animateCamera (camera : Camera) (duration : Z)
| fitToCoordinates (coords : list LatLng) (edgePadding : EdgePadding) (animated : bool).

(** [onMapLayout]: [mapRef] tells whether [mapRef.current] is set; the result
    is the call issued, [None] when the handler returns without one. *)
Definition onMapLayout (mapRef : bool) (filtered : list CanonicalRecord) : option MapCall :=
  if negb mapRef || (length filtered =? 0) then None
  else
    let coords := map (λ r, {| latitude := lat r; longitude := lng r |}) filtered in
    if length coords =? 1
    then Some (animateCamera {| center := coords !! 0; zoom := 14 |} 600)
    else Some (fitToCoordinates coords {| top := 60; right := 60; bottom := 60; left := 60 |} true).

(** ** Import, App.js lines 26-68 *)

(** The two pieces of React state the handler writes. *)
Record AppState := {
  data : list CanonicalRecord;
  error : option string;
}.

Definition setData (d : list CanonicalRecord) (st : AppState) : AppState :=
  {| data := d; error := error st |}.

Definition setError (e : option string) (st : AppState) : AppState :=
  {| data := data st; error := e |}.

Definition failureMessage : string :=
  "Failed to read that file. Make sure it's an .xlsx or .xls with a header row.".

Record Asset := { uri : string }.

(** The result of [DocumentPicker.getDocumentAsync]; [assets] may be missing. *)
Record PickerResult := {
  canceled : bool;
  assets : option (list Asset);
}.

Section ImportHandler.

(** A decoded sheet, opaque to the program: only the library reads it. *)
Variable Worksheet : Type.

Record Workbook := {
  SheetNames : list string;
  Sheets : gmap string Worksheet;
}.

(** The collaborators of one run of the handler: the document picker, the
    file system and the spreadsheet library.  Each call returns or throws. *)
Record Collaborators := {
  getDocumentAsync : result PickerResult;
  readAsStringAsync : string → result string;
  XLSX_read : string → result Workbook;
  sheet_to_json : option Worksheet → result (list RawRow);
}.

(** [wb.Sheets[wb.SheetNames[0]]]: a missing first name is the property
    key ["undefined"]. *)
Definition firstSheet (wb : Workbook) : option Worksheet :=
  Sheets wb !! default "undefined" (SheetNames wb !! 0).

(** The body of the [try] block after [setError(null)]: the state it leaves
    when it completes, or the exception. *)
Definition tryImport (w : Collaborators) (st : AppState) : result AppState :=
  res ← getDocumentAsync w;
  match canceled res, assets res with
  | true, _ | false, None | false, Some [] => Ok st
  | false, Some (file :: _) =>
      b64 ← readAsStringAsync w (uri file);
      wb ← XLSX_read w b64;
      rows ← sheet_to_json w (firstSheet wb);
      Ok (setData (cleaned rows) st)
  end.

(** The handler returned by [pickAndParseExcel(setData, setError)]. *)
Definition pickAndParseExcel (w : Collaborators) (st : AppState) : AppState :=
  let st := setError None st in
  match tryImport w st with
  | Ok st' => st'
  | Throw => setError (Some failureMessage) st
  end.

End ImportHandler.

Arguments SheetNames {Worksheet} _.
Arguments Sheets {Worksheet} _.
Arguments getDocumentAsync {Worksheet} _.
Arguments readAsStringAsync {Worksheet} _ _.
Arguments XLSX_read {Worksheet} _ _.
Arguments sheet_to_json {Worksheet} _ _.
Arguments firstSheet {Worksheet} _.
Arguments tryImport {Worksheet} _ _.
Arguments pickAndParseExcel {Worksheet} _ _.

(** ** The vocabulary of the specification *)

(** The canonical fields that are resolved from a row. *)
Inductive field :=
| Fname | Faddress | Fcity | Fstate | Fcountry | Flat | Flng
| Fphone | Fwebsite | Fcuisine | Fnotes.

(** The header spellings the callback reads for each field, in the order of
    its [||] chain. *)
Definition aliases (f : field) : list string :=
  match f with
  | Fname => ["Name"; "name"; "Title"]
  | Faddress => ["Address"; "address"]
  | Fcity => ["City"; "city"]
  | Fstate => ["State"; "state"]
  | Fcountry => ["Country"; "country"]
  | Flat => ["Latitude"; "latitude"; "lat"]
  | Flng => ["Longitude"; "longitude"; "lng"]
  | Fphone => ["Phone"; "phone"]
  | Fwebsite => ["Website"; "website"]
  | Fcuisine => ["Cuisine"; "cuisine"]
  | Fnotes => ["Notes"; "notes"]
  end.

(** The literal that ends the chain; the coordinate chains have none. *)
Definition fallback (f : field) : option value :=
  match f with
  | Fname => Some (VString "Unnamed")
  | Flat | Flng => None
  | _ => Some (VString "")
  end.

(** A chain [v1 || v2 || ... || vn]. *)
Fixpoint orChain (vs : list value) : value :=
  match vs with
  | [] => VUndefined
  | [v] => v
  | v :: vs' => v ∥ orChain vs'
  end.

Definition candidates (f : field) (r : RawRow) : list value :=
  map (get r) (aliases f) ++ option_list (fallback f).

Definition resolve (f : field) (r : RawRow) : value := orChain (candidates f r).

(** [v] is the first truthy value of [vs], or the last value of [vs] when
    none is truthy. *)
Definition firstTruthyOrLast (vs : list value) (v : value) : Prop :=
  (∃ i, vs !! i = Some v ∧ ToBoolean v = true ∧
        ∀ j w, j < i → vs !! j = Some w → ToBoolean w = false) ∨
  (last vs = Some v ∧ Forall (λ w, ToBoolean w = false) vs).

(** Resolution as the specification words it (4.2): headers are compared
    without regard to case, and the first alias with a non-empty cell wins. *)
Definition headerMatches (alias header : string) : Prop :=
  toLowerCase header = toLowerCase alias.

Definition nonEmptyCell (v : value) : Prop :=
  v ≠ VUndefined ∧ v ≠ VNull ∧ v ≠ VString "".

Definition specResolves (als : list string) (r : RawRow) (v : value) : Prop :=
  ∃ i a h, als !! i = Some a ∧ headerMatches a h ∧ r !! h = Some v ∧ nonEmptyCell v ∧
    ∀ j a' h' v', j < i → als !! j = Some a' → headerMatches a' h' →
                  r !! h' = Some v' → ¬ nonEmptyCell v'.

(** The first alias of a field that the row has a cell for. *)
Definition highestPriorityCell (f : field) (r : RawRow) : option value :=
  head (omap (λ k, r !! k) (aliases f)).

(** The fields the data model types as strings. *)
Definition textFields (c : CanonicalRecord) : list value :=
  [name c; address c; city c; state c; country c; phone c; website c; cuisine c; notes c].

(** The text a field contributes to a search: its string, the empty string
    for a value that is no string. *)
Definition fieldText (v : value) : string :=
  match v with
  | VString s => s
  | _ => ""
  end.

(** Values the search can read: strings, and falsy values (coalesced to the
    empty string by [x || '']). *)
Definition searchable (v : value) : Prop :=
  isString v = true ∨ ToBoolean v = false.

Definition searchableRecord (r : CanonicalRecord) : Prop :=
  Forall searchable (searchFields r).

(** [field] contains [query] as a substring, letter case ignored. *)
Definition containsCI (text query : string) : Prop :=
  substring_of (toLowerCase query) (toLowerCase text).

Definition matchesQuery (query : string) (r : CanonicalRecord) : Prop :=
  Exists (λ v, containsCI (fieldText v) query) (searchFields r).

(** [l'] is the ordered sub-sequence of [l] made of the elements that
    satisfy [P]. *)
Inductive FilterOf {A} (P : A → Prop) : list A → list A → Prop :=
| FilterOf_nil : FilterOf P [] []
| FilterOf_keep x l l' : P x → FilterOf P l l' → FilterOf P (x :: l) (x :: l')
| FilterOf_skip x l l' : ¬ P x → FilterOf P l l' → FilterOf P (x :: l) l'.

(** The boolean form of [matchesQuery] on an already lowered query. *)
Definition matchb (q : string) (r : CanonicalRecord) : bool :=
  existsb (λ v, includes (toLowerCase (fieldText v)) q) (searchFields r).

(** A row whose cells are all strings. *)
Definition textRow (r : RawRow) : Prop :=
  map_Forall (λ _ v, isString v = true) r.

Definition coordinateOf (r : CanonicalRecord) : LatLng :=
  {| latitude := lat r; longitude := lng r |}.

Definition geocodedRecord (r : CanonicalRecord) : Prop :=
  ∃ a b, lat r = Some a ∧ lng r = Some b ∧ isFinite a = true ∧ isFinite b = true.

(** Numeric zero, of either sign. *)
Definition numericZero (v : value) : Prop := ∃ s, v = VNumber (S754_zero s).

(** A cell that is missing or holds the empty string. *)
Definition absentOrEmpty (o : option value) : Prop := o = None ∨ o = Some (VString "").

(** The value of the name chain before its closing literal. *)
Definition rawName (r : RawRow) : value := orChain (map (get r) (aliases Fname)).

(** ** Sample data *)

(** The two rows of the end-to-end scenario of the specification (section 8). *)
Definition rowA : RawRow :=
  {[ "Name" := VString "A"; "City" := VString "X";
     "Latitude" := VString "1,5"; "Longitude" := VString "2.0" ]}.

Definition rowB : RawRow :=
  {[ "name" := VString "b"; "city" := VString "x" ]}.

(** Both spellings of the name header, with different cells. *)
Definition rowBothCases : RawRow :=
  {[ "Name" := VString "Upper"; "name" := VString "lower" ]}.

(** A name cell that holds the number 0 above one that holds text. *)
Definition rowZeroName : RawRow :=
  {[ "Name" := VNumber (S754_zero false); "name" := VString "B" ]}.

(** A header in capitals. *)
Definition rowShouting : RawRow := {[ "NAME" := VString "Chez A" ]}.

Definition zero : number := S754_zero false.

(** Rows with a numeric 0 among the latitude cells. *)
Definition rowEquatorLast : RawRow := {[ "lat" := VNumber zero ]}.

Definition rowEquatorFirst : RawRow :=
  {[ "Latitude" := VNumber zero; "latitude" := VString "12.5" ]}.

Definition rowEquatorOnly : RawRow := {[ "Latitude" := VNumber zero ]}.

(** A restaurant whose name cell is the number 1900. *)
Definition rowNumericName : RawRow := {[ "Name" := VNumber (ofNat 1900) ]}.

(** Collaborators of a run in which the library rejects the picked file. *)
Definition undecodable : Collaborators unit := {|
  getDocumentAsync := Ok {| canceled := false; assets := Some [ {| uri := "file:///list.xlsx" |} ] |};
  readAsStringAsync := λ _, Ok "bm90IGEgc2hlZXQ=";
  XLSX_read := λ _, Throw;
  sheet_to_json := λ _, Ok [];
|}.

(** ** The rest of the screens *)

(** A coordinate field as a value: [null] or a number. *)
Definition nullable (x : option number) : value :=
  match x with
  | Some n => VNumber n
  | None => VNull
  end.

(** [a && b] on values. *)
Definition andValue (a b : value) : value := if ToBoolean a then b else a.

(** [cond && <Element/>] in JSX: the element when [cond] is truthy, the
    falsy value of [cond] otherwise. *)
Definition guarded {E} (cond : value) (element : E) : value + E :=
  if ToBoolean cond then inr element else inl cond.

(** [Array.prototype.join]: [undefined] and [null] give the empty text. *)
Definition joinText (v : value) : string :=
  match v with
  | VUndefined | VNull => ""
  | _ => ToString v
  end.

Fixpoint join (sep : string) (l : list value) : string :=
  match l with
  | [] => ""
  | [v] => joinText v
  | v :: l' => joinText v +:+ sep +:+ join sep l'
  end.

(** The URL the Website link opens, App.js line 114; [startsWith] is a method
    of strings only. *)
Definition websiteUrl (website : value) : result string :=
  match website with
  | VString s => Ok (if startsWith s "http" then s else "https://" +:+ s)
  | _ => Throw
  end.

(** What [renderItem] shows for one record, App.js lines 99-125: the two
    texts, the two optional lines, and for each link the URL its handler
    opens. *)
Record ItemView := {
  itemName : value;
  itemSub : string;
  itemCuisine : value + value;
  itemNotes : value + value;
  callLink : value + string;
  websiteLink : value + result string;
  mapsLink : value + string;
}.

Definition renderItem (item : CanonicalRecord) : ItemView := {|
  itemName := name item;
  itemSub := join ", " (List.filter ToBoolean [address item; city item; state item; country item]);
  itemCuisine := guarded (VBoolean (ToBoolean (cuisine item))) (cuisine item);
  itemNotes := guarded (VBoolean (ToBoolean (notes item))) (notes item);
  callLink := guarded (VBoolean (ToBoolean (phone item))) ("tel:" +:+ ToString (phone item));
  websiteLink := guarded (VBoolean (ToBoolean (website item))) (websiteUrl (website item));
  mapsLink :=
    guarded (andValue (nullable (lat item)) (nullable (lng item)))
      ("https://www.google.com/maps/search/?api=1&query="
         +:+ ToString (nullable (lat item)) +:+ "," +:+ ToString (nullable (lng item)));
|}.

(** The markers of the map, App.js lines 172-174. *)
Record MarkerProps := {
  key : string;
  coordinate : LatLng;
  title : value;
  description : string;
}.

Definition MapScreen_markers (filtered : list CanonicalRecord) : list MarkerProps :=
  map (λ r, {| key := id r;
               coordinate := {| latitude := lat r; longitude := lng r |};
               title := name r;
               description := join ", " (List.filter ToBoolean [address r; city r]) |})
      filtered.

(** The "No mappable rows" notice, App.js line 176. *)
Definition MapScreen_overlay (filtered : list CanonicalRecord) : bool :=
  length filtered =? 0.

(** The error banner of [App], line 195: [!!error]. *)
Definition App_banner (st : AppState) : bool :=
  match error st with
  | Some e => ToBoolean (VString e)
  | None => false
  end.

(** The state [App] starts with, lines 186-187. *)
Definition initialState : AppState := {| data := []; error := None |}.

(** One of the collaborators of a run throws before the rows are there. *)
Definition importThrows {Worksheet} (w : Collaborators Worksheet) : Prop :=
  getDocumentAsync w = Throw ∨
  ∃ res file others,
    getDocumentAsync w = Ok res ∧ canceled res = false ∧ assets res = Some (file :: others) ∧
    (readAsStringAsync w (uri file) = Throw ∨
     ∃ b64, readAsStringAsync w (uri file) = Ok b64 ∧
       (XLSX_read w b64 = Throw ∨
        ∃ wb, XLSX_read w b64 = Ok wb ∧ sheet_to_json w (firstSheet wb) = Throw)).

(** The picker was dismissed, or returned no file. *)
Definition importDismissed {Worksheet} (w : Collaborators Worksheet) : Prop :=
  ∃ res, getDocumentAsync w = Ok res ∧
         (canceled res = true ∨ assets res = None ∨ assets res = Some []).

(** Every call of the run returns, with [rows] at the end. *)
Definition importYields {Worksheet} (w : Collaborators Worksheet) (rows : list RawRow) : Prop :=
  ∃ res file others b64 wb,
    getDocumentAsync w = Ok res ∧ canceled res = false ∧ assets res = Some (file :: others) ∧
    readAsStringAsync w (uri file) = Ok b64 ∧ XLSX_read w b64 = Ok wb ∧
    sheet_to_json w (firstSheet wb) = Ok rows.

(** The headers the callback reads. *)
Definition knownHeaders : list string :=
  aliases Fname ++ aliases Faddress ++ aliases Fcity ++ aliases Fstate ++
  aliases Fcountry ++ aliases Flat ++ aliases Flng ++ aliases Fphone ++
  aliases Fwebsite ++ aliases Fcuisine ++ aliases Fnotes.

(** The character occurs nowhere in the string. *)
Fixpoint freeOf (c : ascii) (s : string) : Prop :=
  match s with
  | "" => True
  | String d s' => d ≠ c ∧ freeOf c s'
  end.

(** Collaborators of a run that delivers the two sample rows, and of one in
    which the picker is dismissed. *)
Definition delivering : Collaborators unit := {|
  getDocumentAsync := Ok {| canceled := false; assets := Some [ {| uri := "file:///list.xlsx" |} ] |};
  readAsStringAsync := λ _, Ok "UEsDBA==";
  XLSX_read := λ _, Ok {| SheetNames := ["Sheet1"]; Sheets := {[ "Sheet1" := () ]} |};
  sheet_to_json := λ _, Ok [rowA; rowB];
|}.

(** Collaborators of a run in which the picker itself fails. *)
Definition pickerFails : Collaborators unit := {|
  getDocumentAsync := Throw;
  readAsStringAsync := λ _, Ok "";
  XLSX_read := λ _, Throw;
  sheet_to_json := λ _, Ok [];
|}.

Definition dismissed : Collaborators unit := {|
  getDocumentAsync := Ok {| canceled := true; assets := None |};
  readAsStringAsync := λ _, Throw;
  XLSX_read := λ _, Throw;
  sheet_to_json := λ _, Throw;
|}.

(** ** The search over Unicode text *)

(** The filter of lines 93-97 once more, over text of any script.  Above
    U+00FF lower-casing is no longer letter by letter:
    [String.prototype.toLowerCase] is the Unicode Default Case Conversion
    (ECMA-262, String.prototype.toLowerCase; Unicode Standard 3.13), in which
    every code point has a lower-case form of its own, except the Greek
    capital sigma U+03A3: it becomes the final sigma U+03C2 at the end of a
    word and the small sigma U+03C3 elsewhere (the condition Final_Sigma of
    SpecialCasing). *)

Module Unicode.

(** Well-formed UTF-16 text, as the list of its code points. *)
Definition text := list N.

(** WhiteSpace and LineTerminator of ECMA-262: TAB, LF, VT, FF, CR, SP, NBSP,
    U+1680, U+2000..U+200A, LS, PS, U+202F, U+205F, U+3000 and U+FEFF. *)
Definition isWhiteSpace (c : N) : bool :=
  ((9 <=? c) && (c <=? 13) || (c =? 32) || (c =? 160) || (c =? 5760) ||
   (8192 <=? c) && (c <=? 8202) || (c =? 8232) || (c =? 8233) || (c =? 8239) ||
   (c =? 8287) || (c =? 12288) || (c =? 65279))%N.

Fixpoint trimStart (s : text) : text :=
  match s with
  | [] => []
  | c :: s' => if isWhiteSpace c then trimStart s' else s
  end.

Fixpoint trimEnd (s : text) : text :=
  match s with
  | [] => []
  | c :: s' =>
      match trimEnd s' with
      | [] => if isWhiteSpace c then [] else [c]
      | t => c :: t
      end
  end.

Definition trim (s : text) : text := trimEnd (trimStart s).

Fixpoint startsWith (s q : text) {struct q} : bool :=
  match q, s with
  | [], _ => true
  | _ :: _, [] => false
  | c :: q', d :: s' => (c =? d)%N && startsWith s' q'
  end.

(** [s.includes(q)] *)
Fixpoint includes (s q : text) : bool :=
  startsWith s q ||
  match s with
  | [] => false
  | _ :: s' => includes s' q
  end.

(** [q] occurs in [s] as a contiguous block. *)
Definition substring_of (q s : text) : Prop :=
  ∃ pre post, s = pre ++ q ++ post.

(** Text made of white space only. *)
Definition blank (s : text) : Prop := Forall (λ c, isWhiteSpace c = true) s.

(** What the case conversion reads in the Unicode Character Database: the
    lower-case form of a code point (Lowercase_Mapping without its
    conditional entries; the code point itself when it has none), and the
    properties Cased and Case_Ignorable. *)
Record CaseTables := {
  lowerOf : N → text;
  isCased : N → bool;
  isCaseIgnorable : N → bool;
}.

Definition capitalSigma : N := 931.
Definition smallSigma : N := 963.
Definition finalSigma : N := 962.

(** Going away from a position, the first code point that is not
    case-ignorable is a cased letter.  (A code point with both properties,
    such as the modifier letters, is passed over, as the implementations of
    the conversion do.) *)
Fixpoint casedNext (T : CaseTables) (s : text) : bool :=
  match s with
  | [] => false
  | c :: s' => if isCaseIgnorable T c then casedNext T s' else isCased T c
  end.

(** Final_Sigma: the sigma is preceded by a cased letter and then zero or
    more case-ignorable code points, and is not followed by zero or more
    case-ignorable code points and then a cased letter.  [before] is the
    text in front of the sigma, nearest code point first. *)
Definition isFinalSigma (T : CaseTables) (before after : text) : bool :=
  casedNext T before && negb (casedNext T after).

Fixpoint lowerFrom (T : CaseTables) (before s : text) : text :=
  match s with
  | [] => []
  | c :: s' =>
      (if (c =? capitalSigma)%N && isFinalSigma T before s' then [finalSigma] else lowerOf T c)
      ++ lowerFrom T (c :: before) s'
  end.

(** [s.toLowerCase()] *)
Definition toLowerCase (T : CaseTables) (s : text) : text := lowerFrom T [] s.

(** The values of the program, with text of any script. *)
Inductive value :=
| VUndefined
| VNull
| VBoolean (b : bool)
| VNumber (n : JSNumber.number)
| VString (s : text).

#[global] Instance value_eq_dec : EqDecision value.
Proof. solve_decision. Defined.

Definition ToBoolean (v : value) : bool :=
  match v with
  | VUndefined | VNull => false
  | VBoolean b => b
  | VNumber (S754_zero _) | VNumber S754_nan => false
  | VNumber _ => true
  | VString [] => false
  | VString _ => true
  end.

(** [a || b] *)
Definition or (a b : value) : value := if ToBoolean a then a else b.

(** The fields of a record that the filter reads. *)
Record SearchedRecord := {
  name : value;
  city : value;
  cuisine : value;
  state : value;
  country : value;
}.

#[global] Instance SearchedRecord_eq_dec : EqDecision SearchedRecord.
Proof. solve_decision. Defined.

(** [(x || '').toLowerCase().includes(q)] *)
Definition lowerIncludes (T : CaseTables) (q : text) (x : value) : result bool :=
  match or x (VString []) with
  | VString s => Ok (includes (toLowerCase T s) q)
  | _ => Throw
  end.

(** The [filtered] memo of [TableScreen], lines 93-97. *)
Definition TableScreen_filtered (T : CaseTables) (data : list SearchedRecord) (search : text)
  : result (list SearchedRecord) :=
  let q := toLowerCase T (trim search) in
  if bool_decide (q = []) then Ok data
  else filterE (λ r, some (lowerIncludes T q) [name r; city r; cuisine r; state r; country r]) data.

(** The text a field contributes to a search. *)
Definition fieldText (v : value) : text :=
  match v with
  | VString s => s
  | _ => []
  end.

(** Values the search can read: text, and falsy values. *)
Definition searchable (v : value) : Prop :=
  (∃ s, v = VString s) ∨ ToBoolean v = false.

Definition searchableRecord (r : SearchedRecord) : Prop :=
  Forall searchable [name r; city r; cuisine r; state r; country r].

Definition matchb (T : CaseTables) (q : text) (r : SearchedRecord) : bool :=
  existsb (λ v, includes (toLowerCase T (fieldText v)) q)
    [name r; city r; cuisine r; state r; country r].

Definition inRange (lo hi c : N) : bool := ((lo <=? c) && (c <=? hi))%N.

(** The tables for the blocks Basic Latin, Latin-1 Supplement and Greek and
    Coptic (U+0000..U+00FF and U+0370..U+03FF) of the Unicode Character
    Database; code points of other blocks are taken as caseless. *)
Definition latinAndGreek : CaseTables := {|
  lowerOf c :=
    if inRange 65 90 c || inRange 192 214 c || inRange 216 222 c
       || inRange 913 929 c || inRange 931 939 c then [c + 32]
    else if (c =? 880) || (c =? 882) || (c =? 886) || inRange 984 1006 c && N.even c
            || (c =? 1015) || (c =? 1018) then [c + 1]
    else if c =? 895 then [1011]
    else if c =? 902 then [940]
    else if inRange 904 906 c then [c + 37]
    else if c =? 908 then [972]
    else if inRange 910 911 c then [c + 63]
    else if c =? 975 then [983]
    else if c =? 1012 then [952]
    else if c =? 1017 then [1010]
    else if inRange 1021 1023 c then [c - 130]
    else [c];
  isCased c :=
    inRange 65 90 c || inRange 97 122 c || (c =? 170) || (c =? 181) || (c =? 186)
    || inRange 192 214 c || inRange 216 246 c || inRange 248 255 c
    || inRange 880 883 c || inRange 886 887 c || inRange 890 893 c || (c =? 895)
    || (c =? 902) || inRange 904 906 c || (c =? 908) || inRange 910 929 c
    || inRange 931 1013 c || inRange 1015 1023 c;
  isCaseIgnorable c :=
    (c =? 39) || (c =? 46) || (c =? 58) || (c =? 94) || (c =? 96) || (c =? 168)
    || (c =? 173) || (c =? 175) || (c =? 180) || inRange 183 184 c
    || inRange 884 885 c || (c =? 890) || inRange 900 901 c || (c =? 903);
|}%N.

(** The code points of a text below U+0100. *)
Definition ofString (s : string) : text := N_of_ascii <$> String.list_ascii_of_string s.

Definition textRecord (n c : text) : SearchedRecord :=
  {| name := VString n; city := VString c; cuisine := VString [];
     state := VString []; country := VString [] |}.

(** The word [ΓΥΡΟΣ], U+0393 U+03A5 U+03A1 U+039F U+03A3, and the record of
    a sheet whose only row has it in the [Name] column. *)
Definition gyros : text := [915; 933; 929; 927; 931]%N.

Definition gyrosRecord : SearchedRecord := textRecord gyros [].

(** Three restaurants with names in Basic Latin. *)
Definition pizzaRoma : SearchedRecord := textRecord (ofString "Pizza Roma") (ofString "Roma").
Definition pizzeria : SearchedRecord := textRecord (ofString "Pizzeria Napoli") (ofString "Napoli").
Definition sushiBar : SearchedRecord := textRecord (ofString "Sushi Bar") (ofString "Osaka").

End Unicode.

(** A value and a record of text below U+0100, as values and records of
    Unicode text. *)
Definition unicodeValue (v : value) : Unicode.value :=
  match v with
  | VUndefined => Unicode.VUndefined
  | VNull => Unicode.VNull
  | VBoolean b => Unicode.VBoolean b
  | VNumber n => Unicode.VNumber n
  | VString s => Unicode.VString (Unicode.ofString s)
  end.

Definition unicodeRecord (r : CanonicalRecord) : Unicode.SearchedRecord := {|
  Unicode.name := unicodeValue (name r);
  Unicode.city := unicodeValue (city r);
  Unicode.cuisine := unicodeValue (cuisine r);
  Unicode.state := unicodeValue (state r);
  Unicode.country := unicodeValue (country r);
|}.

(** The tables give the code points below U+0100 the lower-case forms of
    [lowerChar]. *)
Definition latin1Tables (T : Unicode.CaseTables) : Prop :=
  ∀ c : ascii, Unicode.lowerOf T (N_of_ascii c) = [N_of_ascii (lowerChar c)].

(** [line] is what joining the truthy ones among [fields] with [sep] must
    give: the texts of the fields that are present, in their order, with one
    separator between neighbours and none elsewhere. *)
Definition joinedLine (sep : string) (fields : list value) (line : string) : Prop :=
  line = String.concat sep (ToString <$> List.filter ToBoolean fields) ∧
  (∀ v, v ∈ fields → ToBoolean v = true → substring_of (ToString v) line) ∧
  (∀ v rest, List.filter ToBoolean fields = v :: rest → ∃ tail, line = ToString v +:+ tail) ∧
  (∀ front v, List.filter ToBoolean fields = front ++ [v] → ∃ pre, line = pre +:+ ToString v) ∧
  String.length line
  = sum_list (String.length ∘ ToString <$> List.filter ToBoolean fields)
    + String.length sep * (length (List.filter ToBoolean fields) - 1) ∧
  (line = "" ↔ Forall (λ v, ToBoolean v = false) fields).

(** * Properties *)

(** ** The model of numbers at known values *)

(** [parseFloat] on the prefixes ECMA-262 singles out. *)
Example parseFloat_samples :
  parseFloat "abc" = NaN ∧ parseFloat "" = NaN ∧ parseFloat "." = NaN ∧
  parseFloat "undefined" = NaN ∧ parseFloat "Infinity" = S754_infinity false ∧
  parseFloat "-Infinityx" = S754_infinity true ∧ parseFloat "-0" = S754_zero true ∧
  parseFloat "1e" = ofDecimal false 1 0 ∧ parseFloat " 12.5kg" = ofDecimal false 125 (-1) ∧
  parseFloat ".5" = ofDecimal false 5 (-1) ∧ parseFloat "1.234.5" = ofDecimal false 1234 (-3) ∧
  parseFloat "1e999" = S754_infinity false ∧ parseFloat "1e-999" = S754_zero false.
Proof. by vm_compute. Qed.

(** [Number::toString] gives the shortest digits that read back. *)
Example toString_samples :
  JSNumber.toString (ofDecimal false 1 (-1)) = "0.1" ∧
  JSNumber.toString (ofDecimal false 125 (-1)) = "12.5" ∧
  JSNumber.toString (ofDecimal true 4512 (-2)) = "-45.12" ∧
  JSNumber.toString (ofDecimal false 1 21) = "1e+21" ∧
  JSNumber.toString (ofDecimal false 1 20) = "100000000000000000000" ∧
  JSNumber.toString (ofDecimal false 1 (-6)) = "0.000001" ∧
  JSNumber.toString (ofDecimal false 1 (-7)) = "1e-7" ∧
  JSNumber.toString (ofDecimal false 5 (-324)) = "5e-324" ∧
  JSNumber.toString (ofDecimal false 9007199254740993 0) = "9007199254740992" ∧
  JSNumber.toString (SFdiv prec emax (ofNat 1) (ofNat 3)) = "0.3333333333333333" ∧
  JSNumber.toString (SFadd prec emax (ofDecimal false 1 (-1)) (ofDecimal false 2 (-1)))
  = "0.30000000000000004".
Proof. by vm_compute. Qed.

(** 45.12 is no binary64: the value used is the nearest one, less than half a
    unit in the last place away (in units of 2^-47 / 100). *)
Example nearest_binary64_to_45_12 :
  ofDecimal false 4512 (-2) = S754_finite false 6350075474592399 (-47) ∧
  (2 * Z.abs (4512 * 2 ^ 47 - 100 * 6350075474592399) < 100)%Z ∧
  ofDecimal false 125 (-1) = S754_finite false 7036874417766400 (-49) ∧
  (125 * 2 ^ 49 = 10 * 7036874417766400)%Z.
Proof. by vm_compute. Qed.

(** The text of an array index is its decimal numeral. *)
Example index_text_samples :
  (λ i, JSNumber.toString (ofNat i)) <$> [0; 1; 9; 10; 11; 99; 100; 1234; 4095]
  = decNat <$> [0; 1; 9; 10; 11; 99; 100; 1234; 4095].
Proof. by vm_compute. Qed.

(** ** Strings *)

Module StringFacts.
Import JSString.

Lemma app_nil_l (s : string) : "" +:+ s = s.
Proof. reflexivity. Qed.

Lemma app_cons (c : ascii) (s t : string) : String c s +:+ t = String c (s +:+ t).
Proof. reflexivity. Qed.

Lemma app_nil_r (s : string) : s +:+ "" = s.
Proof. induction s as [|c s IH]; [done|]. by rewrite app_cons, IH. Qed.

Lemma app_assoc (a b c : string) : (a +:+ b) +:+ c = a +:+ b +:+ c.
Proof. induction a as [|x a IH]; [done|]. by rewrite !app_cons, IH. Qed.

Lemma app_eq_nil (a b : string) : a +:+ b = "" → a = "" ∧ b = "".
Proof. destruct a; [by rewrite app_nil_l|by rewrite app_cons]. Qed.

Lemma toLowerCase_app (a b : string) :
  toLowerCase (a +:+ b) = toLowerCase a +:+ toLowerCase b.
Proof. induction a as [|x a IH]; [done|]. rewrite app_cons. simpl. by rewrite IH, app_cons. Qed.

Lemma startsWith_spec (s q : string) :
  startsWith s q = true ↔ ∃ post, s = q +:+ post.
Proof.
  revert s. induction q as [|c q IH]; intros s; simpl.
  - split; [intros _; by exists s|done].
  - destruct s as [|d s].
    + split; [done|]. intros [post H]. by rewrite app_cons in H.
    + case_decide as Hcd; subst.
      * rewrite IH. split; intros [post H]; exists post.
        -- by rewrite H, app_cons.
        -- rewrite app_cons in H. by injection H.
      * split; [done|]. intros [post H]. rewrite app_cons in H. by injection H.
Qed.

Lemma includes_spec (s q : string) :
  includes s q = true ↔ substring_of q s.
Proof.
  unfold substring_of. induction s as [|d s IH]; simpl.
  - rewrite orb_false_r, startsWith_spec. split.
    + intros [post H]. by exists "", post.
    + intros (pre & post & H). symmetry in H.
      apply app_eq_nil in H as [-> H]. by exists post.
  - rewrite orb_true_iff, startsWith_spec, IH. split.
    + intros [[post H]|(pre & post & H)].
      * by exists "", post.
      * exists (String d pre), post. by rewrite app_cons, H.
    + intros (pre & post & H). destruct pre as [|c pre].
      * left. by exists post.
      * right. rewrite app_cons in H. injection H as -> H. by exists pre, post.
Qed.

Lemma substring_of_refl (s : string) : substring_of s s.
Proof. exists "", "". by rewrite app_nil_l, app_nil_r. Qed.

Lemma substring_of_nil (s : string) : substring_of "" s.
Proof. exists "", s. done. Qed.

Lemma substring_of_toLowerCase (a b : string) :
  substring_of a b → substring_of (toLowerCase a) (toLowerCase b).
Proof.
  intros (pre & post & ->). exists (toLowerCase pre), (toLowerCase post).
  by rewrite !toLowerCase_app.
Qed.

Lemma blank_app (a b : string) : blank (a +:+ b) ↔ blank a ∧ blank b.
Proof.
  induction a as [|c a IH]; [rewrite app_nil_l; simpl; tauto|].
  rewrite app_cons. simpl. rewrite IH. tauto.
Qed.

Lemma trimStart_split (s : string) :
  ∃ w, s = w +:+ trimStart s ∧ blank w ∧
       (trimStart s = "" ∨ ∃ c t, trimStart s = String c t ∧ isWhiteSpace c = false).
Proof.
  induction s as [|c s (w & Hs & Hw & Hh)]; simpl.
  - exists "". repeat split. by left.
  - destruct (isWhiteSpace c) eqn:Hc.
    + exists (String c w). rewrite app_cons, <- Hs. simpl. auto.
    + exists "". repeat split. right. eauto.
Qed.

Lemma trimEnd_split (s : string) :
  ∃ w, s = trimEnd s +:+ w ∧ blank w ∧
       (trimEnd s = "" ∨ ∃ t c, trimEnd s = t +:+ String c "" ∧ isWhiteSpace c = false).
Proof.
  induction s as [|c s (w & Hs & Hw & Hh)]; simpl.
  - exists "". repeat split. by left.
  - destruct (trimEnd s) as [|d t] eqn:Ht.
    + destruct (isWhiteSpace c) eqn:Hc.
      * exists (String c w). rewrite app_nil_l in *. subst s. simpl. auto.
      * exists w. rewrite app_nil_l in Hs. subst s. repeat split; [done|].
        right. by exists "", c.
    + exists w. rewrite app_cons, <- Hs. repeat split; [done|]. right.
      destruct Hh as [?|(t' & e & Ht' & He)]; [done|].
      exists (String c t'), e. by rewrite Ht', app_cons.
Qed.

Lemma trimEnd_head (s : string) (c : ascii) (t : string) :
  trimEnd s = String c t → ∃ s', s = String c s'.
Proof.
  destruct s as [|d s]; simpl; [done|].
  destruct (trimEnd s); [destruct (isWhiteSpace d)|]; intros [= -> _]; eauto.
Qed.

Lemma trim_split (s : string) :
  ∃ w1 w2, s = w1 +:+ trim s +:+ w2 ∧ blank w1 ∧ blank w2 ∧ (trim s = "" ∨ solid (trim s)).
Proof.
  unfold trim.
  destruct (trimStart_split s) as (w1 & Hs & Hw1 & Hh).
  destruct (trimEnd_split (trimStart s)) as (w2 & Hs2 & Hw2 & Hl).
  exists w1, w2. rewrite <- Hs2. repeat split; [done..|].
  destruct (trimEnd (trimStart s)) as [|c t] eqn:Ht; [by left|right].
  split; [|destruct Hl as [?|?]; done].
  destruct (trimEnd_head _ _ _ Ht) as [s' Hs'].
  destruct Hh as [Hh|(c' & t' & Hh & Hc)]; rewrite Hh in Hs'; [done|].
  injection Hs' as -> _. eauto.
Qed.

End StringFacts.

(** ** Search *)

Section SearchFacts.

Import StringFacts.

Lemma lowerIncludes_searchable (q : string) (v : value) :
  searchable v → lowerIncludes q v = Ok (includes (toLowerCase (fieldText v)) q).
Proof.
  unfold lowerIncludes, JSValue.or.
  intros [Hs|Hf].
  - destruct v as [| | |n|s]; try discriminate Hs. by destruct s.
  - rewrite Hf. destruct v as [| |b|n|s]; try done. by destruct s.
Qed.

(** The test returns only on a value the search can read. *)
Lemma lowerIncludes_inv (q : string) (v : value) (b : bool) :
  lowerIncludes q v = Ok b →
  searchable v ∧ b = includes (toLowerCase (fieldText v)) q.
Proof.
  intros H. assert (searchable v) as Hv.
  { unfold lowerIncludes, JSValue.or in H.
    destruct v as [| |[]|[]|s]; try discriminate H; (by left) || (by right). }
  rewrite lowerIncludes_searchable in H by done. by injection H as <-.
Qed.

Lemma some_Ok {A} (f : A → result bool) (p : A → bool) (l : list A) :
  Forall (λ x, f x = Ok (p x)) l → some f l = Ok (existsb p l).
Proof.
  induction 1 as [|x l Hx _ IH]; [done|].
  simpl. rewrite Hx. simpl. by destruct (p x).
Qed.

Lemma some_inv {A} (f : A → result bool) (p : A → bool) (l : list A) (b : bool) :
  (∀ x c, f x = Ok c → c = p x) → some f l = Ok b → b = existsb p l.
Proof.
  intros Hf. induction l as [|x l IH]; simpl; [by intros [= <-]|].
  destruct (f x) as [c|] eqn:Hx; simpl; [|done].
  rewrite <- (Hf _ _ Hx). destruct c; [by intros [= <-]|done].
Qed.

Lemma filterE_Ok {A} (f : A → result bool) (p : A → bool) (l : list A) :
  Forall (λ x, f x = Ok (p x)) l → filterE f l = Ok (List.filter p l).
Proof.
  induction 1 as [|x l Hx _ IH]; [done|].
  simpl. rewrite Hx, IH. done.
Qed.

Lemma filterE_inv {A} (f : A → result bool) (p : A → bool) (l l' : list A) :
  (∀ x c, f x = Ok c → c = p x) → filterE f l = Ok l' → l' = List.filter p l.
Proof.
  intros Hf. revert l'. induction l as [|x l IH]; intros l'; simpl; [by intros [= <-]|].
  destruct (f x) as [c|] eqn:Hx; simpl; [|done].
  destruct (filterE f l) as [rest|]; simpl; [|done].
  intros [= <-]. by rewrite <- (Hf _ _ Hx), (IH rest).
Qed.


Lemma some_searchable (q : string) (r : CanonicalRecord) :
  searchableRecord r →
  some (lowerIncludes q) [name r; city r; cuisine r; state r; country r] = Ok (matchb q r).
Proof.
  intros Hr. apply some_Ok. eapply Forall_impl; [exact Hr|].
  intros v Hv. by apply lowerIncludes_searchable.
Qed.

Lemma some_matchb (q : string) (r : CanonicalRecord) (b : bool) :
  some (lowerIncludes q) [name r; city r; cuisine r; state r; country r] = Ok b →
  b = matchb q r.
Proof. apply some_inv. intros v c H. by apply lowerIncludes_inv in H as [_ ->]. Qed.

Lemma includes_nil (s : string) : includes s "" = true.
Proof. apply includes_spec, substring_of_nil. Qed.

Lemma matchb_nil (r : CanonicalRecord) : matchb "" r = true.
Proof. unfold matchb. simpl. by rewrite includes_nil. Qed.

Lemma filter_all {A} (p : A → bool) (l : list A) :
  Forall (λ x, p x = true) l → List.filter p l = l.
Proof. induction 1 as [|x l Hx _ IH]; [done|]. simpl. by rewrite Hx, IH. Qed.

(** On searchable records the memo is a plain filter. *)
Lemma TableScreen_filtered_Ok (data : list CanonicalRecord) (search : string) :
  Forall searchableRecord data →
  TableScreen_filtered data search
  = Ok (List.filter (matchb (toLowerCase (trim search))) data).
Proof.
  intros Hd. unfold TableScreen_filtered. case_bool_decide as Hq.
  - rewrite Hq. f_equal. symmetry. apply filter_all, Forall_forall.
    intros r _. apply matchb_nil.
  - apply filterE_Ok. eapply Forall_impl; [exact Hd|].
    intros r Hr. by apply some_searchable.
Qed.

(** Whenever the memo returns, it returned that filter. *)
Lemma TableScreen_filtered_inv (data l : list CanonicalRecord) (search : string) :
  TableScreen_filtered data search = Ok l →
  l = List.filter (matchb (toLowerCase (trim search))) data.
Proof.
  unfold TableScreen_filtered. case_bool_decide as Hq.
  - intros [= <-]. rewrite Hq. symmetry. apply filter_all, Forall_forall.
    intros r _. apply matchb_nil.
  - apply filterE_inv. intros r c. apply some_matchb.
Qed.

Lemma matchb_spec (query : string) (r : CanonicalRecord) :
  matchb (toLowerCase query) r = true ↔ matchesQuery query r.
Proof.
  unfold matchb, matchesQuery, containsCI.
  rewrite existsb_exists, Exists_exists.
  split; intros (v & Hv & H); exists v.
  - split; [by apply list_elem_of_In|by apply includes_spec].
  - split; [by apply list_elem_of_In|by apply includes_spec].
Qed.

Lemma filter_FilterOf {A} (P : A → Prop) (p : A → bool) (l : list A) :
  (∀ x, p x = true ↔ P x) → FilterOf P l (List.filter p l).
Proof.
  intros Hp. induction l as [|x l IH]; simpl; [constructor|].
  destruct (p x) eqn:Hx.
  - apply FilterOf_keep; [by apply Hp|done].
  - apply FilterOf_skip; [|done]. rewrite <- Hp. congruence.
Qed.


Lemma FilterOf_sublist {A} (P : A → Prop) (l l' : list A) :
  FilterOf P l l' → l' `sublist_of` l.
Proof. induction 1; [constructor|by apply sublist_skip|by apply sublist_cons]. Qed.

Lemma FilterOf_elem_of {A} (P : A → Prop) (l l' : list A) :
  FilterOf P l l' → ∀ x, x ∈ l' ↔ x ∈ l ∧ P x.
Proof.
  induction 1 as [|y l l' Hy _ IH|y l l' Hy _ IH]; intros x.
  - rewrite elem_of_nil. tauto.
  - rewrite !elem_of_cons, IH. split; [intros [->|[??]]; auto|tauto].
  - rewrite elem_of_cons, IH. split; [tauto|]. intros [[->|?] ?]; tauto.
Qed.

End SearchFacts.

(** The contract of the search filter, as far as the code keeps it.  A blank
    query (empty or white space only) returns the collection itself.
    Whenever the filter returns, it returns the ordered sub-sequence of the
    records one of whose fields name, city, cuisine, state, country contains
    the trimmed query as a substring, case ignored; and it does return on
    every collection whose searched fields are strings (falsy values are read
    as the empty string). *)
Theorem search_filter_contract (data : list CanonicalRecord) (search : string) :
  (trim search = "" → TableScreen_filtered data search = Ok data) ∧
  (Forall searchableRecord data → ∃ l, TableScreen_filtered data search = Ok l) ∧
  (∀ l, TableScreen_filtered data search = Ok l →
        FilterOf (matchesQuery (trim search)) data l ∧
        l `sublist_of` data ∧
        (∀ r, r ∈ l ↔ r ∈ data ∧ matchesQuery (trim search) r)).
Proof.
  split; [|split].
  - intros Hq. unfold TableScreen_filtered. by rewrite Hq.
  - intros Hd. eexists. by apply TableScreen_filtered_Ok.
  - intros l ->%TableScreen_filtered_inv.
    assert (FilterOf (matchesQuery (trim search)) data
              (List.filter (matchb (toLowerCase (trim search))) data)) as HF.
    { apply filter_FilterOf. intros r. apply matchb_spec. }
    split; [done|]. split; [by eapply FilterOf_sublist|by apply FilterOf_elem_of].
Qed.

(** ** The map screen *)

Lemma Number_isFinite_Some (x : option number) :
  Number_isFinite x = true ↔ ∃ a, x = Some a ∧ isFinite a = true.
Proof.
  destruct x as [a|]; simpl.
  - split; [eauto|]. by intros (? & [= <-] & ?).
  - split; [done|]. by intros (? & ? & _).
Qed.

Lemma MapScreen_geocoded_sublist (data : list CanonicalRecord) :
  MapScreen_geocoded data `sublist_of` data.
Proof.
  unfold MapScreen_geocoded. induction data as [|d data IH]; simpl; [constructor|].
  case_match; [by apply sublist_skip|by apply sublist_cons].
Qed.

(** C4 — a record is in the geocoded subset exactly when it is a record of the
    collection whose lat and lng are both non-null finite numbers, and the
    records of the map screen are the search filter applied to that subset. *)
Theorem geocoded_subset_then_search (data : list CanonicalRecord) :
  (∀ r, r ∈ MapScreen_geocoded data ↔ r ∈ data ∧ geocodedRecord r) ∧
  MapScreen_geocoded data `sublist_of` data ∧
  (∀ search, MapScreen_filtered data search
             = TableScreen_filtered (MapScreen_geocoded data) search).
Proof.
  split; [|split; [apply MapScreen_geocoded_sublist|done]].
  intros r. unfold MapScreen_geocoded, geocodedRecord.
  rewrite list_elem_of_In, filter_In, <- list_elem_of_In, andb_true_iff.
  rewrite !Number_isFinite_Some. split.
  - intros (Hr & (a & Ha & Hfa) & (b & Hb & Hfb)). split; [done|]. by exists a, b.
  - intros (Hr & a & b & Ha & Hb & Hfa & Hfb). split; [done|]. split; eauto.
Qed.

Lemma onMapLayout_coordinates (f1 f2 : list CanonicalRecord) (mapRef : bool) :
  map coordinateOf f1 = map coordinateOf f2 → onMapLayout mapRef f1 = onMapLayout mapRef f2.
Proof.
  intros H. unfold onMapLayout.
  change (λ r, {| latitude := lat r; longitude := lng r |}) with coordinateOf.
  rewrite <- H, !length_map, <- (length_map coordinateOf f2), <- H, length_map. done.
Qed.

(** C5 — camera framing, with the map mounted: no record, no call; one record,
    a camera centred on its coordinate at zoom 14; two or more, a fit to the
    coordinates of all the records with a padding of 60 on each edge.  The
    instruction is a function of the coordinates of the subset alone, so
    computing it again on the same subset gives the same instruction. *)
Theorem camera_framing :
  onMapLayout true [] = None ∧
  (∀ r, onMapLayout true [r]
        = Some (animateCamera {| center := Some (coordinateOf r); zoom := 14 |} 600)) ∧
  (∀ r1 r2 rest,
     ∃ coords pad,
       onMapLayout true (r1 :: r2 :: rest) = Some (fitToCoordinates coords pad true) ∧
       coords = map coordinateOf (r1 :: r2 :: rest) ∧
       (∀ r, r ∈ r1 :: r2 :: rest → coordinateOf r ∈ coords) ∧
       top pad = 60%Z ∧ right pad = 60%Z ∧ bottom pad = 60%Z ∧ left pad = 60%Z) ∧
  (∀ f1 f2, map coordinateOf f1 = map coordinateOf f2 →
            onMapLayout true f1 = onMapLayout true f2).
Proof.
  split; [done|]. split; [done|]. split.
  - intros r1 r2 rest. do 2 eexists. split; [reflexivity|].
    split; [done|]. split; [|done].
    intros r Hr. by apply list_elem_of_fmap_2.
  - intros f1 f2. apply onMapLayout_coordinates.
Qed.

(** Before the map is mounted the handler does nothing. *)
Lemma onMapLayout_unmounted (filtered : list CanonicalRecord) :
  onMapLayout false filtered = None.
Proof. done. Qed.

(** ** Import *)

Section ImportFacts.

Context {Worksheet : Type}.
Implicit Types (w : Collaborators Worksheet) (st : AppState).

Lemma tryImport_data w st st' :
  tryImport w st = Ok st' →
  st' = st ∨ ∃ rows, st' = setData (cleaned rows) st.
Proof.
  unfold tryImport. destruct (getDocumentAsync w) as [res|]; simpl; [|done].
  destruct (canceled res), (assets res) as [[|file fs]|];
    try (intros [= <-]; by left).
  destruct (readAsStringAsync w (uri file)) as [b64|]; simpl; [|done].
  destruct (XLSX_read w b64) as [wb|]; simpl; [|done].
  destruct (sheet_to_json w (firstSheet wb)) as [rows|]; simpl; [|done].
  intros [= <-]. right. eauto.
Qed.

(** The handler replaces the whole collection or leaves it as it was. *)
Lemma pickAndParseExcel_all_or_nothing w st :
  data (pickAndParseExcel w st) = data st ∨
  ∃ rows, pickAndParseExcel w st = {| data := cleaned rows; error := None |}.
Proof.
  unfold pickAndParseExcel.
  destruct (tryImport w (setError None st)) as [st'|] eqn:Ht; [|by left].
  apply tryImport_data in Ht as [->|[rows ->]]; [by left|right; eauto].
Qed.

End ImportFacts.

(** C6 — import failure: when the user picked a file, its content was read,
    and the spreadsheet library throws on decoding it (in [XLSX.read] or in
    [sheet_to_json]), the handler ends with the static message as the error
    and with the collection that was loaded before. *)
Theorem import_decode_failure {Worksheet : Type}
  (w : Collaborators Worksheet) (st : AppState)
  (res : PickerResult) (file : Asset) (others : list Asset) (b64 : string) :
  getDocumentAsync w = Ok res →
  canceled res = false →
  assets res = Some (file :: others) →
  readAsStringAsync w (uri file) = Ok b64 →
  (XLSX_read w b64 = Throw ∨
   ∃ wb, XLSX_read w b64 = Ok wb ∧ sheet_to_json w (firstSheet wb) = Throw) →
  pickAndParseExcel w st = {| data := data st; error := Some failureMessage |}.
Proof.
  intros Hpick Hc Ha Hread Hdec.
  unfold pickAndParseExcel, tryImport. rewrite Hpick. simpl. rewrite Hc, Ha, Hread. simpl.
  destruct Hdec as [->|(wb & -> & Hj)]; simpl; [done|]. by rewrite Hj.
Qed.

(** ** Values and the normaliser *)

Lemma or_assoc (a b c : value) : (a ∥ b) ∥ c = a ∥ (b ∥ c).
Proof. unfold JSValue.or. destruct (ToBoolean a) eqn:Ha; [by rewrite Ha|done]. Qed.

Lemma or_truthy (a b : value) : ToBoolean a = true → a ∥ b = a.
Proof. unfold JSValue.or. by intros ->. Qed.

Lemma or_falsy (a b : value) : ToBoolean a = false → a ∥ b = b.
Proof. unfold JSValue.or. by intros ->. Qed.

(** A chain closed by a string literal is never [null] or [undefined]. *)
Lemma or_literal_defined (a : value) (s : string) :
  a ∥ VString s ≠ VNull ∧ a ∥ VString s ≠ VUndefined.
Proof. unfold JSValue.or. destruct a as [| |[]|[]|[]]; simpl; by split. Qed.

Lemma or_literal_string (a : value) (s : string) :
  isString a = true ∨ ToBoolean a = false → isString (a ∥ VString s) = true.
Proof. unfold JSValue.or. intros [H| ->]; [|done]. by destruct (ToBoolean a). Qed.

Lemma or_is_string (a b : value) :
  isString a = true ∨ ToBoolean a = false →
  isString b = true ∨ ToBoolean b = false →
  isString (a ∥ b) = true ∨ ToBoolean (a ∥ b) = false.
Proof.
  unfold JSValue.or. intros Ha Hb. destruct (ToBoolean a) eqn:E; [|done].
  destruct Ha as [?|?]; [by left|congruence].
Qed.

Lemma orChain_cons (v : value) (vs : list value) :
  vs ≠ [] → orChain (v :: vs) = v ∥ orChain vs.
Proof. by destruct vs. Qed.

Lemma orChain_spec (vs : list value) :
  vs ≠ [] → firstTruthyOrLast vs (orChain vs).
Proof.
  induction vs as [|v vs IH]; [done|]. intros _.
  destruct vs as [|v' vs'].
  - simpl. destruct (ToBoolean v) eqn:Hv.
    + left. exists 0. repeat split; [done|]. intros j w Hj. lia.
    + right. split; [done|]. by constructor.
  - rewrite orChain_cons by done. destruct (ToBoolean v) eqn:Hv.
    + rewrite or_truthy by done. left. exists 0. repeat split; [done|].
      intros j w Hj. lia.
    + rewrite or_falsy by done.
      destruct IH as [(i & Hi & Ht & Hbefore)|[Hlast Hall]]; [done|..].
      * left. exists (S i). repeat split; [done..|].
        intros [|j] w Hj Hw; [by injection Hw as <-|].
        apply (Hbefore j); [lia|done].
      * right. split; [done|]. by constructor.
Qed.

Lemma get_textRow (r : RawRow) (k : string) :
  textRow r → isString (r.[k]) = true ∨ ToBoolean (r.[k]) = false.
Proof.
  intros Hr. unfold get. destruct (r !! k) as [v|] eqn:Hk; simpl; [|by right].
  left. by apply (Hr k v).
Qed.

Lemma cleanRow_resolve (r : RawRow) (idx : nat) :
  name (cleanRow r idx) = resolve Fname r ∧
  address (cleanRow r idx) = resolve Faddress r ∧
  city (cleanRow r idx) = resolve Fcity r ∧
  state (cleanRow r idx) = resolve Fstate r ∧
  country (cleanRow r idx) = resolve Fcountry r ∧
  lat (cleanRow r idx) = safeFloat (resolve Flat r) ∧
  lng (cleanRow r idx) = safeFloat (resolve Flng r) ∧
  phone (cleanRow r idx) = resolve Fphone r ∧
  website (cleanRow r idx) = resolve Fwebsite r ∧
  cuisine (cleanRow r idx) = resolve Fcuisine r ∧
  notes (cleanRow r idx) = resolve Fnotes r.
Proof. unfold resolve, candidates; simpl. by rewrite !or_assoc. Qed.

Lemma resolve_exact_headers (f : field) (r r' : RawRow) :
  (∀ k, k ∈ aliases f → r !! k = r' !! k) → resolve f r = resolve f r'.
Proof.
  intros H. unfold resolve, candidates. do 2 f_equal.
  apply map_ext_in. intros k Hk. unfold get. by rewrite H by by apply list_elem_of_In.
Qed.

Lemma cleanRow_text_defined (r : RawRow) (idx : nat) :
  Forall (λ v, v ≠ VNull ∧ v ≠ VUndefined) (textFields (cleanRow r idx)).
Proof. unfold textFields; simpl. repeat constructor; apply or_literal_defined. Qed.

Lemma cleanRow_textRow (r : RawRow) (idx : nat) :
  textRow r → Forall (λ v, isString v = true) (textFields (cleanRow r idx)).
Proof.
  intros Hr. unfold textFields; simpl.
  repeat constructor; apply or_literal_string; repeat apply or_is_string;
    by apply get_textRow.
Qed.

(** Rows of text cells give records the search can read. *)
Lemma cleaned_searchable (rows : list RawRow) :
  Forall textRow rows → Forall searchableRecord (cleaned rows).
Proof.
  intros Hrows. apply Forall_lookup. intros i c Hc.
  unfold cleaned in Hc. rewrite list_lookup_imap in Hc.
  destruct (rows !! i) as [r|] eqn:Hr; [|done]. injection Hc as <-.
  pose proof (cleanRow_textRow r i (Forall_lookup_1 _ _ _ _ Hrows Hr)) as Hs.
  unfold textFields in Hs. unfold searchableRecord, searchFields.
  repeat match goal with H : Forall _ (_ :: _) |- _ => apply Forall_cons in H as [? H] end.
  repeat (apply Forall_cons; split; [by left|]). by apply Forall_nil.
Qed.

(** C3 — fails on the code: the search filter does not return a sub-sequence
    for every collection.  A row whose name cell is the number 1900 is a
    record whose name is that number; a search that reaches it calls
    [toLowerCase] on a number and throws, where the claim promises the
    (empty) list of matching records. *)
Theorem numeric_name_breaks_search :
  name (cleanRow rowNumericName 0) = VNumber (ofNat 1900) ∧
  ¬ matchesQuery "x" (cleanRow rowNumericName 0) ∧
  TableScreen_filtered (cleaned [rowNumericName]) "x" = Throw.
Proof.
  split; [by vm_compute|]. split; [|by vm_compute].
  rewrite <- matchb_spec. by vm_compute.
Qed.

(** ** Identifiers *)

(** Decimal digits never contain the separator, so the digits before the
    first ["-"] determine the number. *)
Lemma digits_before_dash (d d' : Decimal.uint) (s t : string) :
  DecimalString.NilEmpty.string_of_uint d +:+ String "-" s
  = DecimalString.NilEmpty.string_of_uint d' +:+ String "-" t → d = d'.
Proof.
  revert d'. induction d as [|d IH|d IH|d IH|d IH|d IH|d IH|d IH|d IH|d IH|d IH];
    intros [|d'|d'|d'|d'|d'|d'|d'|d'|d'|d']; cbn; intros H;
    try discriminate H; try done;
    injection H as H; f_equal; by apply IH.
Qed.

Lemma NilZero_as_NilEmpty (d : Decimal.uint) :
  DecimalString.NilZero.string_of_uint d
  = DecimalString.NilEmpty.string_of_uint
      (match d with Decimal.Nil => Decimal.D0 Decimal.Nil | _ => d end).
Proof. by destruct d. Qed.

Lemma decNat_before_dash (i j : nat) (s t : string) :
  decNat i +:+ "-" +:+ s = decNat j +:+ "-" +:+ t → i = j.
Proof.
  unfold decNat, decN. rewrite !NilZero_as_NilEmpty. intros H.
  apply digits_before_dash in H.
  assert (∀ d, N.of_uint (match d with Decimal.Nil => Decimal.D0 Decimal.Nil | _ => d end)
               = N.of_uint d) as Hnil by (by intros []).
  apply (f_equal N.of_uint) in H.
  rewrite !Hnil, !DecimalN.Unsigned.of_to in H. by apply Nat2N.inj.
Qed.

Lemma cleanRow_id (r : RawRow) (idx : nat) :
  id (cleanRow r idx) = decNat idx +:+ "-" +:+ ToString (rawName r ∥ VString "").
Proof. unfold rawName; simpl. by rewrite !or_assoc. Qed.

Lemma cleanRow_name (r : RawRow) (idx : nat) :
  name (cleanRow r idx) = rawName r ∥ VString "Unnamed".
Proof. unfold rawName; simpl. by rewrite !or_assoc. Qed.

Lemma cleaned_ids_NoDup (rows : list RawRow) : NoDup (id <$> cleaned rows).
Proof.
  apply NoDup_alt. intros i j x Hi Hj.
  unfold cleaned in *. rewrite list_lookup_fmap, list_lookup_imap in Hi, Hj.
  destruct (rows !! i) as [ri|]; [|done]. destruct (rows !! j) as [rj|]; [|done].
  change (Some (id (cleanRow ri i)) = Some x) in Hi.
  change (Some (id (cleanRow rj j)) = Some x) in Hj.
  injection Hi as Hi. injection Hj as Hj. rewrite <- Hj in Hi.
  by apply decNat_before_dash in Hi.
Qed.

(** C8, as the code has it — the id is the decimal position, a dash, and the
    text of the name chain before its default: for a row with a name it is
    position, dash and the value of the name field; for a row without a name
    it is position and dash alone, while the name field is "Unnamed".  The
    ids of one import are pairwise distinct. *)
Theorem record_id_synthesis (rows : list RawRow) :
  (∀ r idx, ToBoolean (rawName r) = true →
     name (cleanRow r idx) = rawName r ∧
     id (cleanRow r idx) = decNat idx +:+ "-" +:+ ToString (name (cleanRow r idx))) ∧
  (∀ r idx, ToBoolean (rawName r) = false →
     name (cleanRow r idx) = VString "Unnamed" ∧
     id (cleanRow r idx) = decNat idx +:+ "-") ∧
  NoDup (id <$> cleaned rows).
Proof.
  split; [|split; [|apply cleaned_ids_NoDup]].
  - intros r idx H. rewrite cleanRow_id, cleanRow_name, !or_truthy by done. done.
  - intros r idx H. rewrite cleanRow_id, cleanRow_name, !or_falsy by done.
    split; [done|]. simpl. by rewrite StringFacts.app_nil_r.
Qed.

(** C8, as stated, fails: the record of a row without a name has the id
    ["0-"], which is neither ["0"] nor ["0-"] followed by its name "Unnamed". *)
Lemma id_is_not_position_with_name :
  ¬ (∀ (r : RawRow) (idx : nat),
       id (cleanRow r idx) = decNat idx +:+ ToString (name (cleanRow r idx)) ∨
       id (cleanRow r idx) = decNat idx +:+ "-" +:+ ToString (name (cleanRow r idx))).
Proof. intros H. by destruct (H ∅ 0) as [H0|H0]; vm_compute in H0. Qed.

(** ** Field resolution *)

(** C1, as the code has it — each field is the [||] chain over the exact
    header spellings of its alias list, in order, closed by its default
    literal (the coordinates: the chain without a default, then [safeFloat]):
    the first truthy cell wins, the last operand when none is truthy; headers
    spelled otherwise are not read; a truthy [Name] cell wins over [name]. *)
Theorem alias_resolution (r : RawRow) (idx : nat) :
  (name (cleanRow r idx) = resolve Fname r ∧
   address (cleanRow r idx) = resolve Faddress r ∧
   city (cleanRow r idx) = resolve Fcity r ∧
   state (cleanRow r idx) = resolve Fstate r ∧
   country (cleanRow r idx) = resolve Fcountry r ∧
   lat (cleanRow r idx) = safeFloat (resolve Flat r) ∧
   lng (cleanRow r idx) = safeFloat (resolve Flng r) ∧
   phone (cleanRow r idx) = resolve Fphone r ∧
   website (cleanRow r idx) = resolve Fwebsite r ∧
   cuisine (cleanRow r idx) = resolve Fcuisine r ∧
   notes (cleanRow r idx) = resolve Fnotes r) ∧
  (∀ f, firstTruthyOrLast (candidates f r) (resolve f r)) ∧
  (∀ f r', (∀ k, k ∈ aliases f → r !! k = r' !! k) → resolve f r = resolve f r') ∧
  (∀ v, r !! "Name" = Some v → ToBoolean v = true → name (cleanRow r idx) = v).
Proof.
  split; [apply cleanRow_resolve|]. split; [|split].
  - intros f. apply orChain_spec. by destruct f.
  - intros f r'. apply resolve_exact_headers.
  - intros v Hv Ht. simpl. unfold get at 1. rewrite Hv. simpl.
    by rewrite !(or_truthy v).
Qed.

(** C1, as stated, fails: with a header matched without regard to case the
    row [{NAME: "Chez A"}] resolves its name to "Chez A", and the record's
    name is "Unnamed". *)
Lemma header_case_matters :
  ¬ (∀ (r : RawRow) (idx : nat) (v : value),
       specResolves (aliases Fname) r v → name (cleanRow r idx) = v).
Proof.
  intros H. specialize (H rowShouting 0 (VString "Chez A")).
  assert (specResolves (aliases Fname) rowShouting (VString "Chez A")) as Hs.
  { exists 0, "Name", "NAME". repeat split; try done. intros j ? ? ? Hj. lia. }
  apply H in Hs. by vm_compute in Hs.
Qed.

(** A cell that is not empty but falsy is skipped as well: the first alias
    with a non-empty cell is [Name], holding 0, and the record is named "B". *)
Remark falsy_cell_is_skipped :
  specResolves (aliases Fname) rowZeroName (VNumber (S754_zero false)) ∧
  name (cleanRow rowZeroName 0) = VString "B".
Proof.
  split; [|by vm_compute].
  exists 0, "Name", "Name". repeat split; try done. intros j ? ? ? Hj. lia.
Qed.

(** ** Coordinates *)

Lemma safeFloat_Some (v : value) (n : number) :
  safeFloat v = Some n ↔
  parseFloat (replace (ToString v) "," ".") = n ∧ isFinite n = true.
Proof.
  unfold safeFloat. destruct (isFinite _) eqn:Hf.
  - split; [by intros [= <-]|by intros [-> _]].
  - split; [done|]. intros [<- H]. congruence.
Qed.

Lemma safeFloat_None (v : value) :
  safeFloat v = None ↔ isFinite (parseFloat (replace (ToString v) "," ".")) = false.
Proof. unfold safeFloat. by destruct (isFinite _). Qed.

Lemma safeFloat_finite (v : value) (n : number) :
  safeFloat v = Some n → isFinite n = true ∧ n ≠ NaN ∧ ∀ s, n ≠ S754_infinity s.
Proof.
  intros [_ Hf]%safeFloat_Some. split; [done|].
  split; [by intros ->|]. intros s ->. done.
Qed.

(** C2 — [safeFloat] is: the text of the value, its first comma turned into a
    point, parsed as a float, kept when finite and [null] otherwise.  Both
    coordinates of a record are made by it from their chains, so neither is
    ever [NaN] or an infinity.  "45,12" gives 45.12, "abc" and the empty
    string give [null], the number 12.5 gives 12.5. *)
Theorem safeFloat_coercion :
  (∀ v n, safeFloat v = Some n ↔
          parseFloat (replace (ToString v) "," ".") = n ∧ isFinite n = true) ∧
  (∀ v, safeFloat v = None ↔
        isFinite (parseFloat (replace (ToString v) "," ".")) = false) ∧
  (∀ r idx, lat (cleanRow r idx) = safeFloat (r.["Latitude"] ∥ r.["latitude"] ∥ r.["lat"]) ∧
            lng (cleanRow r idx) = safeFloat (r.["Longitude"] ∥ r.["longitude"] ∥ r.["lng"])) ∧
  (∀ r idx n, lat (cleanRow r idx) = Some n ∨ lng (cleanRow r idx) = Some n →
              isFinite n = true ∧ n ≠ NaN ∧ ∀ s, n ≠ S754_infinity s) ∧
  safeFloat (VString "45,12") = Some (ofDecimal false 4512 (-2)) ∧
  safeFloat (VString "abc") = None ∧
  safeFloat (VString "") = None ∧
  safeFloat (VNumber (ofDecimal false 125 (-1))) = Some (ofDecimal false 125 (-1)).
Proof.
  split; [apply safeFloat_Some|]. split; [apply safeFloat_None|].
  split; [done|]. split; [|by vm_compute].
  intros r idx n [H|H]; by apply safeFloat_finite in H.
Qed.

(** ** Totality of the normaliser *)

(** C7 — every row gives exactly one record, at its own position; no text
    field of a record is [null] (or [undefined]); a row without recognised
    headers gives the record of defaults; a row without a name is named
    "Unnamed"; a coordinate that does not parse to a finite number is [null]
    in a record that is still there. *)
Theorem normalization_total (rows : list RawRow) :
  length (cleaned rows) = length rows ∧
  (∀ i, cleaned rows !! i = (λ r, cleanRow r i) <$> rows !! i) ∧
  (∀ r idx, Forall (λ v, v ≠ VNull ∧ v ≠ VUndefined) (textFields (cleanRow r idx))) ∧
  (∀ idx, cleanRow ∅ idx =
          {| id := decNat idx +:+ "-"; name := VString "Unnamed";
             address := VString ""; city := VString ""; state := VString "";
             country := VString ""; lat := None; lng := None;
             phone := VString ""; website := VString ""; cuisine := VString "";
             notes := VString "" |}) ∧
  (∀ r idx, ToBoolean (rawName r) = false → name (cleanRow r idx) = VString "Unnamed") ∧
  (∀ r idx, isFinite (parseFloat (replace (ToString (resolve Flat r)) "," ".")) = false →
            lat (cleanRow r idx) = None) ∧
  (∀ r idx, isFinite (parseFloat (replace (ToString (resolve Flng r)) "," ".")) = false →
            lng (cleanRow r idx) = None).
Proof.
  split; [apply length_imap|]. split; [intros i; apply list_lookup_imap|].
  split; [apply cleanRow_text_defined|]. split; [|split; [|split]].
  - intros idx. unfold cleanRow. by f_equal.
  - intros r idx H. by rewrite cleanRow_name, or_falsy.
  - intros r idx H. destruct (cleanRow_resolve r idx) as (_&_&_&_&_&->&_).
    by apply safeFloat_None.
  - intros r idx H. destruct (cleanRow_resolve r idx) as (_&_&_&_&_&_&->&_).
    by apply safeFloat_None.
Qed.

(** ** A numeric 0 among the coordinate cells *)

Lemma safeFloat_absentOrEmpty (r : RawRow) (k : string) :
  absentOrEmpty (r !! k) → ToBoolean (r.[k]) = false ∧ safeFloat (r.[k]) = None.
Proof. unfold get. by intros [-> | ->]. Qed.

Lemma numericZero_falsy (v : value) : numericZero v → ToBoolean v = false.
Proof. by intros [s ->]. Qed.

Lemma safeFloat_numericZero (v : value) : numericZero v → safeFloat v = Some zero.
Proof. by intros [[] ->]. Qed.

(** C10, as the code has it — a numeric 0 in the [Latitude] cell is skipped by
    [||]: lat is the coercion of [latitude || lat], and [null] when those two
    cells are missing or empty; the same holds for a 0 in [latitude] under a
    missing or empty [Latitude].  A 0 in the last alias [lat] is the last
    operand of the chain and is kept: the record's lat is 0.  Longitude
    behaves alike. *)
Theorem numeric_zero_coordinate (r : RawRow) (idx : nat) :
  (numericZero (r.["Latitude"]) →
     lat (cleanRow r idx) = safeFloat (r.["latitude"] ∥ r.["lat"]) ∧
     (absentOrEmpty (r !! "latitude") → absentOrEmpty (r !! "lat") →
      lat (cleanRow r idx) = None)) ∧
  (absentOrEmpty (r !! "Latitude") → numericZero (r.["latitude"]) →
     absentOrEmpty (r !! "lat") → lat (cleanRow r idx) = None) ∧
  (ToBoolean (r.["Latitude"]) = false → ToBoolean (r.["latitude"]) = false →
     numericZero (r.["lat"]) → lat (cleanRow r idx) = Some zero) ∧
  (numericZero (r.["Longitude"]) →
     lng (cleanRow r idx) = safeFloat (r.["longitude"] ∥ r.["lng"]) ∧
     (absentOrEmpty (r !! "longitude") → absentOrEmpty (r !! "lng") →
      lng (cleanRow r idx) = None)) ∧
  (absentOrEmpty (r !! "Longitude") → numericZero (r.["longitude"]) →
     absentOrEmpty (r !! "lng") → lng (cleanRow r idx) = None) ∧
  (ToBoolean (r.["Longitude"]) = false → ToBoolean (r.["longitude"]) = false →
     numericZero (r.["lng"]) → lng (cleanRow r idx) = Some zero).
Proof.
  assert (∀ a b c : string,
            numericZero (r.[a]) →
            safeFloat (r.[a] ∥ r.[b] ∥ r.[c]) = safeFloat (r.[b] ∥ r.[c]) ∧
            (absentOrEmpty (r !! b) → absentOrEmpty (r !! c) →
             safeFloat (r.[a] ∥ r.[b] ∥ r.[c]) = None)) as Hfirst.
  { intros a b c Ha%numericZero_falsy. rewrite (or_falsy (r.[a])) by done.
    split; [done|]. intros [Hb _]%safeFloat_absentOrEmpty [_ Hc]%safeFloat_absentOrEmpty.
    by rewrite or_falsy. }
  assert (∀ a b c : string,
            absentOrEmpty (r !! a) → numericZero (r.[b]) → absentOrEmpty (r !! c) →
            safeFloat (r.[a] ∥ r.[b] ∥ r.[c]) = None) as Hmid.
  { intros a b c [Ha _]%safeFloat_absentOrEmpty Hb%numericZero_falsy
      [_ Hc]%safeFloat_absentOrEmpty.
    by rewrite (or_falsy (r.[a])), or_falsy. }
  assert (∀ a b c : string,
            ToBoolean (r.[a]) = false → ToBoolean (r.[b]) = false → numericZero (r.[c]) →
            safeFloat (r.[a] ∥ r.[b] ∥ r.[c]) = Some zero) as Hlast.
  { intros a b c Ha Hb Hc. rewrite (or_falsy (r.[a])), or_falsy by done.
    by apply safeFloat_numericZero. }
  simpl. repeat split; eauto; by apply Hfirst.
Qed.

(** C10, as stated, fails: the highest-priority latitude cell of the row
    [{Latitude: 0, latitude: "12.5"}] holds the number 0, and the record's
    lat is 12.5, not [null]. *)
Lemma zero_cell_is_not_always_null :
  ¬ (∀ (r : RawRow) (idx : nat) (v : value),
       highestPriorityCell Flat r = Some v → numericZero v →
       lat (cleanRow r idx) = None).
Proof.
  intros H. specialize (H rowEquatorFirst 0 (VNumber zero)).
  assert (lat (cleanRow rowEquatorFirst 0) = None) as H0.
  { apply H; [done|by exists false]. }
  by vm_compute in H0.
Qed.

(** Nor is it [null] for the row [{lat: 0}]: the record's lat is 0. *)
Remark zero_in_last_alias_is_kept :
  highestPriorityCell Flat rowEquatorLast = Some (VNumber zero) ∧
  lat (cleanRow rowEquatorLast 0) = Some zero.
Proof. by vm_compute. Qed.

(** ** The theorems at the sample data *)

(** Searching "x" in the two sample records returns both. *)
Example search_filter_on_samples :
  FilterOf (matchesQuery (trim "x")) (cleaned [rowA; rowB]) (cleaned [rowA; rowB]) ∧
  cleaned [rowA; rowB] `sublist_of` cleaned [rowA; rowB] ∧
  (∀ r, r ∈ cleaned [rowA; rowB] ↔ r ∈ cleaned [rowA; rowB] ∧ matchesQuery (trim "x") r).
Proof.
  apply (proj2 (proj2 (search_filter_contract (cleaned [rowA; rowB]) "x"))).
  reflexivity.
Qed.

(** A failed import over the two sample records. *)
Lemma import_decode_failure_witness :
  pickAndParseExcel undecodable {| data := cleaned [rowA; rowB]; error := None |}
  = {| data := cleaned [rowA; rowB]; error := Some failureMessage |}.
Proof.
  apply (import_decode_failure undecodable {| data := cleaned [rowA; rowB]; error := None |}
           {| canceled := false; assets := Some [ {| uri := "file:///list.xlsx" |} ] |}
           {| uri := "file:///list.xlsx" |} [] "bm90IGEgc2hlZXQ=");
    [reflexivity..|left; reflexivity].
Defined.

(** [Name] wins over [name]. *)
Lemma alias_resolution_witness : name (cleanRow rowBothCases 0) = VString "Upper".
Proof.
  apply (proj2 (proj2 (proj2 (alias_resolution rowBothCases 0))) (VString "Upper"));
    reflexivity.
Defined.

(** The id of a named row. *)
Lemma record_id_synthesis_witness :
  name (cleanRow rowA 0) = rawName rowA ∧
  id (cleanRow rowA 0) = decNat 0 +:+ "-" +:+ ToString (name (cleanRow rowA 0)).
Proof. apply (proj1 (record_id_synthesis []) rowA 0). reflexivity. Defined.

(** A row with no header at all. *)
Lemma normalization_total_witness : name (cleanRow ∅ 3) = VString "Unnamed".
Proof.
  apply (proj1 (proj2 (proj2 (proj2 (proj2 (normalization_total []))))) ∅ 3).
  reflexivity.
Defined.

(** A row whose only latitude cell is [Latitude], holding 0. *)
Lemma numeric_zero_coordinate_witness : lat (cleanRow rowEquatorOnly 0) = None.
Proof.
  apply (proj1 (numeric_zero_coordinate rowEquatorOnly 0)).
  - exists false. reflexivity.
  - left. reflexivity.
  - left. reflexivity.
Defined.

(** ** The end-to-end scenario of the specification *)

(** Two rows give two records; A is at (1.5, 2.0), b has no coordinates;
    searching "x" returns both; the map shows A alone. *)
Example end_to_end_scenario :
  let records := cleaned [rowA; rowB] in
  (lat <$> records) = [Some (ofDecimal false 15 (-1)); None] ∧
  (lng <$> records) = [Some (ofDecimal false 2 0); None] ∧
  (id <$> records) = ["0-A"; "1-b"] ∧
  TableScreen_filtered records "x" = Ok records ∧
  MapScreen_filtered records "x" = Ok [cleanRow rowA 0] ∧
  onMapLayout true (MapScreen_geocoded records)
  = Some (animateCamera
            {| center := Some {| latitude := Some (ofDecimal false 15 (-1));
                                 longitude := Some (ofDecimal false 2 0) |};
               zoom := 14 |} 600).
Proof. by vm_compute. Qed.

(** * Further properties of the code *)

(** ** The import handler *)

Section ImportOutcomes.

Context {Worksheet : Type}.
Implicit Types (w : Collaborators Worksheet) (st : AppState).

(** The three ways a run of the [try] block can go. *)
Lemma tryImport_cases w st :
  (importDismissed w ∧ tryImport w st = Ok st) ∨
  (∃ rows, importYields w rows ∧ tryImport w st = Ok (setData (cleaned rows) st)) ∨
  (importThrows w ∧ tryImport w st = Throw).
Proof.
  unfold tryImport, importDismissed, importYields, importThrows.
  destruct (getDocumentAsync w) as [res|] eqn:Hres; simpl; [|right; right; auto].
  destruct (canceled res) eqn:Hc.
  { left. split; [|done]. eauto. }
  destruct (assets res) as [[|file fs]|] eqn:Ha.
  { left. split; [|done]. eauto 6. }
  2:{ left. split; [|done]. eauto 6. }
  destruct (readAsStringAsync w (uri file)) as [b64|] eqn:Hread; simpl.
  2:{ right; right. split; [|done]. right. exists res, file, fs. eauto 8. }
  destruct (XLSX_read w b64) as [wb|] eqn:Hwb; simpl.
  2:{ right; right. split; [|done]. right. exists res, file, fs.
      repeat split; [done..|]. right. exists b64. eauto. }
  destruct (sheet_to_json w (firstSheet wb)) as [rows|] eqn:Hrows; simpl.
  - right; left. exists rows. split; [|done]. exists res, file, fs, b64, wb. eauto 8.
  - right; right. split; [|done]. right. exists res, file, fs.
    repeat split; [done..|]. right. exists b64. split; [done|]. right. eauto.
Qed.

(** The three cases exclude one another. *)
Lemma import_cases_exclusive w :
  ¬ (importDismissed w ∧ importThrows w) ∧
  (∀ rows, ¬ (importDismissed w ∧ importYields w rows)) ∧
  (∀ rows, ¬ (importYields w rows ∧ importThrows w)).
Proof.
  unfold importDismissed, importYields, importThrows. split; [|split].
  - intros [(res & Hres & Hd) [Ht|(res' & file & fs & Hres' & Hc & Ha & _)]];
      [congruence|]. rewrite Hres in Hres'. injection Hres' as <-.
    destruct Hd as [?|[?|?]]; congruence.
  - intros rows [(res & Hres & Hd) (res' & file & fs & b64 & wb & Hres' & Hc & Ha & _)].
    rewrite Hres in Hres'. injection Hres' as <-. destruct Hd as [?|[?|?]]; congruence.
  - intros rows [(res & file & fs & b64 & wb & Hres & Hc & Ha & Hread & Hwb & Hrows)
                   [Ht|(res' & file' & fs' & Hres' & _ & Ha' & Hrest)]]; [congruence|].
    rewrite Hres in Hres'. injection Hres' as <-. rewrite Ha in Ha'. injection Ha' as <- <-.
    destruct Hrest as [?|(b64' & Hread' & Hrest)]; [congruence|].
    rewrite Hread in Hread'. injection Hread' as <-.
    destruct Hrest as [?|(wb' & Hwb' & Hrest)]; [congruence|].
    rewrite Hwb in Hwb'. injection Hwb' as <-. congruence.
Qed.

Lemma run_yields w st (rows : list RawRow) :
  importYields w rows →
  pickAndParseExcel w st = {| data := cleaned rows; error := None |}.
Proof.
  intros Hy. unfold pickAndParseExcel.
  destruct (tryImport_cases w (setError None st))
    as [[Hd ->]|[(rows' & Hy' & ->)|[Ht ->]]].
  - by destruct (proj1 (proj2 (import_cases_exclusive w)) rows).
  - destruct Hy as (res & file & fs & b64 & wb & Hres & _ & Ha & Hread & Hwb & Hrows).
    destruct Hy' as (res' & file' & fs' & b64' & wb' & Hres' & _ & Ha' & Hread' & Hwb' & Hrows').
    rewrite Hres in Hres'. injection Hres' as <-. rewrite Ha in Ha'. injection Ha' as <- <-.
    rewrite Hread in Hread'. injection Hread' as <-.
    rewrite Hwb in Hwb'. injection Hwb' as <-. rewrite Hrows in Hrows'. by injection Hrows' as <-.
  - by destruct (proj2 (proj2 (import_cases_exclusive w)) rows).
Qed.

Lemma run_dismissed w st :
  importDismissed w → pickAndParseExcel w st = {| data := data st; error := None |}.
Proof.
  intros Hd. unfold pickAndParseExcel.
  destruct (tryImport_cases w (setError None st))
    as [[_ ->]|[(rows & Hy & _)|[Ht _]]]; [done|..].
  - by destruct (proj1 (proj2 (import_cases_exclusive w)) rows).
  - by destruct (proj1 (import_cases_exclusive w)).
Qed.

Lemma run_throws w st :
  importThrows w →
  pickAndParseExcel w st = {| data := data st; error := Some failureMessage |}.
Proof.
  intros Ht. unfold pickAndParseExcel.
  destruct (tryImport_cases w (setError None st))
    as [[Hd _]|[(rows & Hy & _)|[_ ->]]]; [..|done].
  - by destruct (proj1 (import_cases_exclusive w)).
  - by destruct (proj2 (proj2 (import_cases_exclusive w)) rows).
Qed.

(** A run that delivers rows replaces the whole collection by their records,
    one per row, whatever was loaded and whatever error was shown before. *)
Theorem import_success_replaces w st (rows : list RawRow) :
  importYields w rows →
  pickAndParseExcel w st = {| data := cleaned rows; error := None |} ∧
  length (data (pickAndParseExcel w st)) = length rows ∧
  App_banner (pickAndParseExcel w st) = false.
Proof.
  intros Hy. rewrite (run_yields w st rows Hy).
  split; [done|]. split; [apply length_imap|done].
Qed.

(** Dismissing the picker keeps the collection, and clears the error that a
    failed import had left. *)
Theorem import_dismissed_clears_error w st :
  importDismissed w →
  pickAndParseExcel w st = {| data := data st; error := None |}.
Proof. apply run_dismissed. Qed.

(** The banner is up after a run exactly when a collaborator threw, and the
    error is then the one static message. *)
Theorem import_banner_iff_throw w st :
  (App_banner (pickAndParseExcel w st) = true ↔ importThrows w) ∧
  (error (pickAndParseExcel w st) = None ∨
   error (pickAndParseExcel w st) = Some failureMessage).
Proof.
  unfold pickAndParseExcel.
  destruct (tryImport_cases w (setError None st))
    as [[Hd ->]|[(rows & Hy & ->)|[Ht ->]]]; simpl.
  - split; [|by left]. split; [done|]. intros Ht.
    by destruct (proj1 (import_cases_exclusive w)).
  - split; [|by left]. split; [done|]. intros Ht.
    by destruct (proj2 (proj2 (import_cases_exclusive w)) rows).
  - split; [|by right]. done.
Qed.

(** Whichever collaborator throws, the picker, the file system or the
    library, the collection stays and the static message is set. *)
Theorem import_throw_keeps_data w st :
  importThrows w →
  pickAndParseExcel w st = {| data := data st; error := Some failureMessage |}.
Proof. apply run_throws. Qed.

(** Running the handler again with the same outcomes changes nothing more. *)
Theorem import_idempotent w st :
  pickAndParseExcel w (pickAndParseExcel w st) = pickAndParseExcel w st.
Proof.
  destruct (tryImport_cases w st) as [[Hd _]|[(rows & Hy & _)|[Ht _]]].
  - by rewrite !(run_dismissed w _ Hd).
  - by rewrite !(run_yields w _ rows Hy).
  - by rewrite !(run_throws w _ Ht).
Qed.

End ImportOutcomes.

(** ** More on strings *)

Section TrimFacts.

Import StringFacts.

Lemma isWhiteSpace_lowerChar (c : ascii) : isWhiteSpace (lowerChar c) = isWhiteSpace c.
Proof. by destruct c as [[] [] [] [] [] [] [] []]. Qed.

Lemma lowerChar_idemp (c : ascii) : lowerChar (lowerChar c) = lowerChar c.
Proof. by destruct c as [[] [] [] [] [] [] [] []]. Qed.

Lemma toLowerCase_idemp (s : string) : toLowerCase (toLowerCase s) = toLowerCase s.
Proof. induction s as [|c s IH]; [done|]. simpl. by rewrite lowerChar_idemp, IH. Qed.

Lemma trimStart_toLowerCase (s : string) :
  trimStart (toLowerCase s) = toLowerCase (trimStart s).
Proof.
  induction s as [|c s IH]; [done|]. simpl. rewrite isWhiteSpace_lowerChar.
  by destruct (isWhiteSpace c).
Qed.

Lemma trimEnd_toLowerCase (s : string) :
  trimEnd (toLowerCase s) = toLowerCase (trimEnd s).
Proof.
  induction s as [|c s IH]; [done|]. simpl. rewrite IH, isWhiteSpace_lowerChar.
  destruct (trimEnd s); simpl; [by destruct (isWhiteSpace c)|done].
Qed.

Lemma trim_toLowerCase (s : string) : trim (toLowerCase s) = toLowerCase (trim s).
Proof. unfold trim. by rewrite trimStart_toLowerCase, trimEnd_toLowerCase. Qed.

Lemma trimStart_blank (w : string) : blank w → trimStart w = "".
Proof. induction w as [|c w IH]; [done|]. intros [Hc Hw]. simpl. rewrite Hc. auto. Qed.

Lemma trimEnd_blank (w : string) : blank w → trimEnd w = "".
Proof.
  induction w as [|c w IH]; [done|]. intros [Hc Hw]. simpl. by rewrite IH, Hc.
Qed.

Lemma trimStart_app (s w : string) :
  trimStart (s +:+ w)
  = match trimStart s with "" => trimStart w | t => t +:+ w end.
Proof.
  induction s as [|c s IH]; [done|]. rewrite app_cons. simpl.
  destruct (isWhiteSpace c); [done|]. by rewrite app_cons.
Qed.

Lemma trimEnd_app_blank (s w : string) : blank w → trimEnd (s +:+ w) = trimEnd s.
Proof.
  intros Hw. induction s as [|c s IH]; [by apply trimEnd_blank|].
  rewrite app_cons. simpl. by rewrite IH.
Qed.

(** Blanks around a string are trimmed away. *)
Lemma trim_padded (w1 s w2 : string) :
  blank w1 → blank w2 → trim (w1 +:+ s +:+ w2) = trim s.
Proof.
  intros H1 H2. unfold trim.
  rewrite (trimStart_app w1), (trimStart_blank w1) by done.
  rewrite trimStart_app. destruct (trimStart s) as [|c t] eqn:Hs.
  - by rewrite (trimStart_blank w2).
  - by rewrite trimEnd_app_blank.
Qed.

Lemma trim_idemp (s : string) : trim (trim s) = trim s.
Proof.
  destruct (trim_split s) as (w1 & w2 & Hs & H1 & H2 & _).
  rewrite Hs at 2. by rewrite trim_padded.
Qed.

Lemma trim_substring (s : string) : substring_of (trim s) s.
Proof. destruct (trim_split s) as (w1 & w2 & Hs & _). by exists w1, w2. Qed.

Lemma startsWith_app (p s : string) : startsWith (p +:+ s) p = true.
Proof. apply startsWith_spec. by exists s. Qed.

End TrimFacts.

(** ** More on the search *)

Section SearchMore.

Lemma filterE_each {A} (f : A → result bool) (l l' : list A) :
  filterE f l = Ok l' → Forall (λ x, ∃ c, f x = Ok c) l.
Proof.
  revert l'. induction l as [|x l IH]; intros l'; simpl; [by constructor|].
  destruct (f x) as [c|] eqn:Hx; simpl; [|done].
  destruct (filterE f l) as [rest|]; simpl; [|done]. intros _.
  constructor; [eauto|]. by apply (IH rest).
Qed.

Lemma filterE_of_each {A} (f : A → result bool) (l : list A) :
  Forall (λ x, ∃ c, f x = Ok c) l → ∃ l', filterE f l = Ok l'.
Proof.
  induction 1 as [|x l [c Hx] _ [l' IH]]; simpl; [eauto|].
  rewrite Hx, IH. simpl. eauto.
Qed.

Lemma filter_comm {A} (p g : A → bool) (l : list A) :
  List.filter p (List.filter g l) = List.filter g (List.filter p l).
Proof.
  induction l as [|x l IH]; [done|]. simpl.
  destruct (g x) eqn:Hg, (p x) eqn:Hp; simpl; rewrite ?Hg, ?Hp, IH; done.
Qed.

Lemma filter_absorb {A} (p1 p2 : A → bool) (l : list A) :
  (∀ x, p2 x = true → p1 x = true) →
  List.filter p2 (List.filter p1 l) = List.filter p2 l.
Proof.
  intros Hp. induction l as [|x l IH]; [done|]. simpl.
  destruct (p1 x) eqn:H1; simpl; [by rewrite IH|].
  destruct (p2 x) eqn:H2; [|done]. rewrite (Hp _ H2) in H1. done.
Qed.

(** A search that returns on a collection returns on each part of it. *)
Lemma TableScreen_filtered_part (data part l : list CanonicalRecord) (search : string) :
  TableScreen_filtered data search = Ok l → part ⊆ data →
  TableScreen_filtered part search
  = Ok (List.filter (matchb (toLowerCase (trim search))) part).
Proof.
  intros Hl Hpart.
  assert (∃ l', TableScreen_filtered part search = Ok l') as [l' Hl'].
  { revert Hl. unfold TableScreen_filtered. case_bool_decide; [eauto|].
    intros Hl%filterE_each. apply filterE_of_each.
    rewrite Forall_forall in Hl. apply Forall_forall. intros r Hr. by apply Hl, Hpart. }
  rewrite Hl'. f_equal. by apply TableScreen_filtered_inv.
Qed.

End SearchMore.

Lemma MapScreen_filtered_of_table
  (data lt : list CanonicalRecord) (search : string) :
  TableScreen_filtered data search = Ok lt →
  MapScreen_filtered data search = Ok (MapScreen_geocoded lt).
Proof.
  intros Ht. change (MapScreen_filtered data search)
    with (TableScreen_filtered (MapScreen_geocoded data) search).
  rewrite (TableScreen_filtered_part data _ _ search Ht).
  - pose proof (TableScreen_filtered_inv _ _ _ Ht) as ->.
    f_equal. apply filter_comm.
  - apply sublist_subseteq, MapScreen_geocoded_sublist.
Qed.

(** The map shows the geocoded part of what the table shows: when the table's
    search returns a list, the map's search returns the records of that list
    that have finite coordinates, in the same order. *)
Theorem map_shows_geocoded_of_table
  (data lt : list CanonicalRecord) (search : string) :
  TableScreen_filtered data search = Ok lt →
  MapScreen_filtered data search = Ok (MapScreen_geocoded lt) ∧
  MapScreen_geocoded lt `sublist_of` lt.
Proof.
  intros Ht. split; [by apply MapScreen_filtered_of_table|].
  apply MapScreen_geocoded_sublist.
Qed.

(** A record is found by the full text of any of its searched fields,
    whatever blanks surround it in the query box. *)
Theorem search_finds_field_text
  (data l : list CanonicalRecord) (r : CanonicalRecord) (text : string) :
  TableScreen_filtered data text = Ok l →
  r ∈ data → VString text ∈ searchFields r → r ∈ l.
Proof.
  intros ->%TableScreen_filtered_inv Hr Hf.
  apply list_elem_of_In, filter_In. split; [by apply list_elem_of_In|].
  unfold matchb. apply existsb_exists. exists (VString text).
  split; [by apply list_elem_of_In|]. simpl. apply StringFacts.includes_spec.
  apply StringFacts.substring_of_toLowerCase, trim_substring.
Qed.

(** Neither the case of the query's letters nor blanks around it change what
    a search gives on either screen. *)
Theorem search_ignores_case_and_padding
  (data : list CanonicalRecord) (search w1 w2 : string) :
  blank w1 → blank w2 →
  TableScreen_filtered data (w1 +:+ toLowerCase search +:+ w2)
  = TableScreen_filtered data search ∧
  MapScreen_filtered data (w1 +:+ toLowerCase search +:+ w2)
  = MapScreen_filtered data search.
Proof.
  intros H1 H2.
  assert (toLowerCase (trim (w1 +:+ toLowerCase search +:+ w2))
          = toLowerCase (trim search)) as Hq.
  { by rewrite trim_padded, trim_toLowerCase, toLowerCase_idemp. }
  unfold MapScreen_filtered, TableScreen_filtered. by rewrite Hq.
Qed.

(** ** After an import *)

Lemma TableScreen_filtered_sublist (data l : list CanonicalRecord) (search : string) :
  TableScreen_filtered data search = Ok l → l `sublist_of` data.
Proof.
  intros ->%TableScreen_filtered_inv.
  induction data as [|r data IH]; simpl; [constructor|].
  case_match; [by apply sublist_skip|by apply sublist_cons].
Qed.

Lemma MapScreen_filtered_sublist (data l : list CanonicalRecord) (search : string) :
  MapScreen_filtered data search = Ok l → l `sublist_of` MapScreen_geocoded data.
Proof. apply (TableScreen_filtered_sublist (MapScreen_geocoded data)). Qed.

(** A sheet of text cells can be searched with any query on both screens:
    neither search throws. *)
Theorem text_sheet_search_returns (rows : list RawRow) (search : string) :
  Forall textRow rows →
  ∃ lt, TableScreen_filtered (cleaned rows) search = Ok lt ∧
        MapScreen_filtered (cleaned rows) search = Ok (MapScreen_geocoded lt).
Proof.
  intros Hrows%cleaned_searchable.
  eexists. split; [by apply TableScreen_filtered_Ok|].
  apply MapScreen_filtered_of_table. by apply TableScreen_filtered_Ok.
Qed.

Lemma MapScreen_markers_keys (l : list CanonicalRecord) :
  key <$> MapScreen_markers l = id <$> l.
Proof. induction l as [|r l IH]; [done|]. simpl. by f_equal. Qed.

(** The React keys are pairwise distinct: the ids of the list items the table
    shows and the keys of the markers the map shows, for any query after any
    import. *)
Theorem list_and_marker_keys_distinct (rows : list RawRow) (search : string) :
  (∀ l, TableScreen_filtered (cleaned rows) search = Ok l → NoDup (id <$> l)) ∧
  (∀ l, MapScreen_filtered (cleaned rows) search = Ok l →
        NoDup (key <$> MapScreen_markers l)).
Proof.
  split.
  - intros l Hl%TableScreen_filtered_sublist.
    apply (sublist_NoDup _ (id <$> cleaned rows)); [apply cleaned_ids_NoDup|].
    by apply fmap_sublist.
  - intros l Hl%MapScreen_filtered_sublist. rewrite MapScreen_markers_keys.
    apply (sublist_NoDup _ (id <$> cleaned rows)); [apply cleaned_ids_NoDup|].
    apply fmap_sublist. etrans; [done|]. apply MapScreen_geocoded_sublist.
Qed.

(** Every marker stands at a finite latitude and longitude, and there are as
    many markers as records the map's search returned. *)
Theorem markers_have_finite_coordinates
  (data l : list CanonicalRecord) (search : string) :
  MapScreen_filtered data search = Ok l →
  length (MapScreen_markers l) = length l ∧
  Forall (λ m, ∃ a b, latitude (coordinate m) = Some a ∧ longitude (coordinate m) = Some b ∧
                      isFinite a = true ∧ isFinite b = true)
         (MapScreen_markers l).
Proof.
  intros Hl%MapScreen_filtered_sublist. split; [apply length_map|].
  unfold MapScreen_markers. apply Forall_forall. intros m Hm.
  apply list_elem_of_In, in_map_iff in Hm as (r & <- & Hr). simpl.
  apply list_elem_of_In in Hr.
  assert (r ∈ MapScreen_geocoded data) as Hg by by eapply sublist_subseteq.
  unfold MapScreen_geocoded in Hg.
  apply list_elem_of_In, filter_In in Hg as [_ Hg].
  apply andb_true_iff in Hg as [(a & Ha & Hfa)%Number_isFinite_Some (b & Hb & Hfb)%Number_isFinite_Some].
  by exists a, b.
Qed.

(** The notice "No mappable rows" is up exactly when the map has no marker,
    and a mounted map gets a camera call exactly when the notice is down. *)
Theorem overlay_iff_no_marker (filtered : list CanonicalRecord) :
  (MapScreen_overlay filtered = true ↔ MapScreen_markers filtered = []) ∧
  (MapScreen_overlay filtered = false ↔ ∃ call, onMapLayout true filtered = Some call).
Proof.
  unfold MapScreen_overlay, onMapLayout, MapScreen_markers.
  destruct filtered as [|r [|r' rest]]; simpl; split; split; eauto; try done.
  all: by intros [call H].
Qed.

(** After an import the map takes exactly the records whose two coordinates
    are not [null]: a coordinate the normaliser kept always passes the
    finiteness test of the map. *)
Theorem imported_geocoded_iff_not_null (rows : list RawRow) (c : CanonicalRecord) :
  c ∈ cleaned rows →
  (c ∈ MapScreen_geocoded (cleaned rows) ↔ lat c ≠ None ∧ lng c ≠ None).
Proof.
  intros Hc. unfold MapScreen_geocoded.
  rewrite list_elem_of_In, filter_In, <- list_elem_of_In, andb_true_iff.
  apply list_elem_of_lookup in Hc as [i Hi]. unfold cleaned in Hi.
  rewrite list_lookup_imap in Hi. destruct (rows !! i) as [r|] eqn:Hr; [|done].
  injection Hi as <-.
  assert (∀ v, Number_isFinite (safeFloat v) = true ↔ safeFloat v ≠ None) as Hsf.
  { intros v. destruct (safeFloat v) as [n|] eqn:Hv; simpl; [|done].
    apply safeFloat_finite in Hv as [-> _]. done. }
  simpl. rewrite !Hsf. split; [tauto|]. intros [??]. split; [|done].
  apply list_elem_of_lookup. exists i. unfold cleaned. by rewrite list_lookup_imap, Hr.
Qed.

(** ** More on the normaliser *)

Lemma get_insert_other (r : RawRow) (k a : string) (v : value) :
  k ≠ a → (<[k:=v]> r).[a] = r.[a].
Proof. intros H. unfold get. by rewrite lookup_insert_ne. Qed.

Lemma get_delete_other (r : RawRow) (k a : string) :
  k ≠ a → (delete k r).[a] = r.[a].
Proof. intros H. unfold get. by rewrite lookup_delete_ne. Qed.

(** Columns the callback does not read make no difference: adding, changing
    or removing a cell under any other header leaves the record as it is. *)
Theorem unknown_headers_are_ignored (r : RawRow) (idx : nat) (k : string) (v : value) :
  k ∉ knownHeaders →
  cleanRow (<[k:=v]> r) idx = cleanRow r idx ∧
  cleanRow (delete k r) idx = cleanRow r idx.
Proof.
  intros Hk.
  assert (∀ a, a ∈ knownHeaders → k ≠ a) as Hne by (intros a Ha ->; done).
  assert (∀ a, a ∈ knownHeaders → (<[k:=v]> r).[a] = r.[a]) as Hi
    by (intros a Ha; by apply get_insert_other, Hne).
  assert (∀ a, a ∈ knownHeaders → (delete k r).[a] = r.[a]) as Hd
    by (intros a Ha; by apply get_delete_other, Hne).
  unfold cleanRow.
  split; [rewrite !Hi|rewrite !Hd]; try done;
    apply (bool_decide_unpack _); by vm_compute.
Qed.

(** ** More on [safeFloat] *)

Section SafeFloatMore.

Import StringFacts.

Lemma blank_freeOf_comma (w : string) : blank w → freeOf "," w.
Proof.
  induction w as [|c w IH]; [done|]. intros [Hc Hw]. split; [|auto].
  intros ->. done.
Qed.

Lemma freeOf_app (c : ascii) (a b : string) : freeOf c (a +:+ b) ↔ freeOf c a ∧ freeOf c b.
Proof.
  induction a as [|x a IH]; [rewrite app_nil_l; simpl; tauto|].
  rewrite app_cons. simpl. rewrite IH. tauto.
Qed.

(** The first comma is the one that is replaced. *)
Lemma replace_comma_app (a s : string) :
  freeOf "," a → replace (a +:+ s) "," "." = a +:+ replace s "," ".".
Proof.
  induction a as [|c a IH]; [done|]. intros [Hc Ha].
  rewrite !app_cons. simpl. rewrite decide_False by done. by rewrite IH.
Qed.

Lemma replace_comma_free (s : string) : freeOf "," s → replace s "," "." = s.
Proof.
  intros Hs. rewrite <- (app_nil_r s) at 1. rewrite replace_comma_app by done.
  by rewrite app_nil_r.
Qed.

Lemma parseFloat_skips_blank (w s : string) : blank w → parseFloat (w +:+ s) = parseFloat s.
Proof.
  intros Hw. unfold parseFloat. by rewrite trimStart_app, trimStart_blank.
Qed.

End SafeFloatMore.

(** A decimal comma reads as a decimal point: a text with one comma gives the
    coordinate that the same text with a point in its place gives. *)
Theorem decimal_comma_reads_as_point (a b : string) :
  freeOf "," a → freeOf "," b →
  safeFloat (VString (a +:+ "," +:+ b)) = safeFloat (VString (a +:+ "." +:+ b)).
Proof.
  intros Ha Hb. unfold safeFloat. simpl.
  rewrite replace_comma_app by done.
  rewrite (replace_comma_free (a +:+ "." +:+ b)).
  - done.
  - apply freeOf_app. split; [done|]. apply freeOf_app. by split.
Qed.

(** Blanks before the number in a coordinate cell do not matter. *)
Theorem coordinate_ignores_leading_blanks (w s : string) :
  blank w → safeFloat (VString (w +:+ s)) = safeFloat (VString s).
Proof.
  intros Hw. unfold safeFloat. simpl.
  rewrite replace_comma_app by by apply blank_freeOf_comma.
  by rewrite parseFloat_skips_blank.
Qed.

(** Only a text cell or a finite numeric cell can give a coordinate:
    [undefined], [null], booleans, [NaN] and the infinities give [null]. *)
Theorem coordinate_only_from_text_or_finite_number (v : value) (n : number) :
  safeFloat v = Some n →
  (∃ s, v = VString s) ∨ (∃ m, v = VNumber m ∧ isFinite m = true).
Proof.
  destruct v as [| |b|m|s]; [by vm_compute|by vm_compute|by destruct b; vm_compute| |eauto].
  destruct m as [sg|sg| |sg m e]; [eauto|by destruct sg; vm_compute|by vm_compute|eauto].
Qed.

(** ** The list item *)

Section ItemFacts.

Import StringFacts.

Lemma decN_nonempty (n : N) : decN n ≠ "".
Proof. unfold decN. by destruct (N.to_uint n). Qed.

Lemma app_nonempty_l (a b : string) : a ≠ "" → a +:+ b ≠ "".
Proof. intros Ha [H _]%app_eq_nil. done. Qed.

Lemma app_nonempty_r (a b : string) : b ≠ "" → a +:+ b ≠ "".
Proof. intros Hb [_ H]%app_eq_nil. done. Qed.

Ltac nonempty :=
  first [ done
        | apply decN_nonempty
        | apply app_nonempty_l; nonempty
        | apply app_nonempty_r; nonempty ].

(** The text of a number is never empty. *)
Lemma toString_nonempty (x : number) : JSNumber.toString x ≠ "".
Proof.
  destruct x as [s|[]| |sg m e]; try done.
  unfold JSNumber.toString.
  destruct (shortestFrom _ _ _ _ _ _) as [[s n] k].
  assert (∀ body, body ≠ "" → (if sg then "-" +:+ body else body) ≠ "") as Hsg.
  { intros body Hb. destruct sg; [by apply app_nonempty_r|done]. }
  apply Hsg. repeat case_match; nonempty.
Qed.

Lemma joinText_truthy (v : value) : ToBoolean v = true → joinText v ≠ "".
Proof.
  destruct v as [| |[]|n|s]; simpl; try done.
  - intros _. apply toString_nonempty.
  - by destruct s.
Qed.

Lemma join_nonempty (sep : string) (l : list value) :
  l ≠ [] → Forall (λ v, joinText v ≠ "") l → join sep l ≠ "".
Proof.
  destruct l as [|v [|v' l]]; [done|..]; intros _ [Hv _]%Forall_cons.
  - done.
  - change (joinText v +:+ sep +:+ join sep (v' :: l) ≠ ""). by apply app_nonempty_l.
Qed.

(** The joined line of the truthy values is empty only when there is none. *)
Lemma join_truthy_empty (sep : string) (l : list value) :
  join sep (List.filter ToBoolean l) = "" ↔ Forall (λ v, ToBoolean v = false) l.
Proof.
  split.
  - intros H. destruct (List.filter ToBoolean l) as [|v k] eqn:Hf.
    + apply Forall_forall. intros v Hv. destruct (ToBoolean v) eqn:Ht; [|done].
      assert (In v (List.filter ToBoolean l)) as Hin
        by (apply filter_In; split; [by apply list_elem_of_In|done]).
      by rewrite Hf in Hin.
    + exfalso. revert H. apply join_nonempty; [done|].
      apply Forall_forall. intros u Hu. apply joinText_truthy.
      rewrite <- Hf in Hu. by apply list_elem_of_In, filter_In in Hu as [_ ?].
  - intros H. induction H as [|v l Hv _ IH]; [done|]. simpl. by rewrite Hv.
Qed.

End ItemFacts.

Section JoinFacts.

Import StringFacts.

Lemma joinText_ToString (v : value) : ToBoolean v = true → joinText v = ToString v.
Proof. by destruct v. Qed.

Lemma join_cons (sep : string) (v v' : value) (l : list value) :
  join sep (v :: v' :: l) = joinText v +:+ sep +:+ join sep (v' :: l).
Proof. reflexivity. Qed.

(** [join] on truthy values is the library's [concat] of their texts. *)
Lemma join_concat (sep : string) (l : list value) :
  Forall (λ v, ToBoolean v = true) l → join sep l = String.concat sep (ToString <$> l).
Proof.
  induction 1 as [|v l Hv Hl IH]; [done|].
  destruct l as [|v' l]; [by apply joinText_ToString|].
  rewrite join_cons, IH, joinText_ToString by done. done.
Qed.

(** Every joined value shows in the line. *)
Lemma join_shows (sep : string) (l : list value) (v : value) :
  v ∈ l → substring_of (joinText v) (join sep l).
Proof.
  induction l as [|u l IH]; [by intros ?%elem_of_nil|].
  destruct l as [|u' l].
  - intros ->%list_elem_of_singleton. apply substring_of_refl.
  - rewrite join_cons. intros [->|Hv]%elem_of_cons.
    + by exists "", (sep +:+ join sep (u' :: l)).
    + destruct (IH Hv) as (pre & post & ->).
      exists (joinText u +:+ sep +:+ pre), post. by rewrite !app_assoc.
Qed.

Lemma join_begins (sep : string) (v : value) (l : list value) :
  ∃ tail, join sep (v :: l) = joinText v +:+ tail.
Proof.
  destruct l as [|v' l]; [exists ""; by rewrite app_nil_r|].
  rewrite join_cons. eauto.
Qed.

Lemma join_ends (sep : string) (l : list value) (v : value) :
  ∃ pre, join sep (l ++ [v]) = pre +:+ joinText v.
Proof.
  induction l as [|u l [pre IH]]; [by exists ""|].
  destruct (l ++ [v]) as [|u' k] eqn:Hk; [by destruct l|].
  change (join sep ((u :: l) ++ [v])) with (join sep (u :: l ++ [v])).
  rewrite Hk, join_cons, IH. exists (joinText u +:+ sep +:+ pre). by rewrite !app_assoc.
Qed.

Lemma length_app (a b : string) :
  String.length (a +:+ b) = String.length a + String.length b.
Proof. induction a as [|c a IH]; [done|]. rewrite app_cons. simpl. by rewrite IH. Qed.

(** One separator for each gap between two joined values. *)
Lemma join_length (sep : string) (l : list value) :
  String.length (join sep l)
  = sum_list (String.length ∘ joinText <$> l) + String.length sep * (length l - 1).
Proof.
  induction l as [|v l IH]; [simpl; lia|].
  destruct l as [|v' l]; [simpl; lia|].
  rewrite join_cons, !length_app, IH. simpl. lia.
Qed.

Lemma filter_truthy (l : list value) :
  Forall (λ v, ToBoolean v = true) (List.filter ToBoolean l).
Proof. apply Forall_forall. by intros v [_ ?]%list_elem_of_In%filter_In. Qed.

Lemma join_filter_joinedLine (sep : string) (fields : list value) :
  joinedLine sep fields (join sep (List.filter ToBoolean fields)).
Proof.
  pose proof (filter_truthy fields) as Ht.
  split; [by apply join_concat|]. split; [|split; [|split; [|split]]].
  - intros v Hv Hb. rewrite <- joinText_ToString by done. apply join_shows.
    apply list_elem_of_In, filter_In. split; [by apply list_elem_of_In|done].
  - intros v rest Hf. rewrite Hf in *. apply Forall_cons in Ht as [Hv _].
    rewrite <- joinText_ToString by done. apply join_begins.
  - intros front v Hf. rewrite Hf in *. apply Forall_app in Ht as [_ [Hv _]%Forall_cons].
    rewrite <- joinText_ToString by done. apply join_ends.
  - assert (String.length ∘ joinText <$> List.filter ToBoolean fields
            = String.length ∘ ToString <$> List.filter ToBoolean fields) as Hmap.
    { induction Ht as [|v l Hv _ IH]; [done|].
      rewrite !fmap_cons, IH. unfold compose. by rewrite joinText_ToString. }
    by rewrite join_length, Hmap.
  - apply join_truthy_empty.
Qed.

End JoinFacts.

(** The address line of a list item is made of the texts of those of
    address, city, state and country that are there, in that order, with
    [", "] between neighbours and nowhere else: it is the library's [concat]
    of these texts, the text of each field that is there occurs in it, it
    begins with the first and ends with the last of them, it is as long as
    the texts together and two more for each gap, and it is empty exactly
    when none of the four fields is there.  The description of a marker is
    made of address and city in the same way. *)
Theorem address_line_joins_present_fields (item : CanonicalRecord) :
  joinedLine ", " [address item; city item; state item; country item]
    (itemSub (renderItem item)) ∧
  (∀ m, m ∈ MapScreen_markers [item] →
        joinedLine ", " [address item; city item] (description m)).
Proof.
  split; [apply join_filter_joinedLine|].
  intros m ->%list_elem_of_singleton. apply join_filter_joinedLine.
Qed.

(** A record with an address and a state, but no city and no country. *)
Example address_line_sample :
  itemSub (renderItem (cleanRow {[ "Address" := VString "1 Main St";
                                   "State" := VString "TX" ]} 0))
  = "1 Main St, TX".
Proof. reflexivity. Qed.

(** "Open in Maps" is offered exactly when both coordinates are numbers other
    than 0 (and [NaN]): a record on the equator or on the prime meridian has
    its marker on the map but no link in the list, and the value 0 stands in
    the place of the link. *)
Theorem maps_link_needs_nonzero_coordinates (item : CanonicalRecord) :
  ((∃ url, mapsLink (renderItem item) = inr url) ↔
   ∃ a b, lat item = Some a ∧ lng item = Some b ∧
          ToBoolean (VNumber a) = true ∧ ToBoolean (VNumber b) = true) ∧
  (∀ s b, lat item = Some (S754_zero s) → lng item = Some b → isFinite b = true →
          item ∈ MapScreen_geocoded [item] ∧
          mapsLink (renderItem item) = inl (VNumber (S754_zero s))) ∧
  (∀ a s, lat item = Some a → ToBoolean (VNumber a) = true → isFinite a = true →
          lng item = Some (S754_zero s) →
          item ∈ MapScreen_geocoded [item] ∧
          mapsLink (renderItem item) = inl (VNumber (S754_zero s))).
Proof.
  unfold renderItem, guarded, andValue, MapScreen_geocoded. cbn [mapsLink].
  split; [|split].
  - destruct (lat item) as [[sa|sa| |sa ma ea]|], (lng item) as [[sb|sb| |sb mb eb]|];
      simpl;
      (split;
       [ intros [url H]; try discriminate H; do 2 eexists; by repeat split
       | intros (a' & b' & ? & ? & ? & ?); simplify_eq/=; eauto ]).
  - intros s b Hlat Hlng Hb. cbn [List.filter]. rewrite Hlat, Hlng.
    cbn [nullable Number_isFinite]. rewrite Hb. simpl.
    split; [apply list_elem_of_here|done].
  - intros a s Hlat Ha Hfa Hlng. cbn [List.filter]. rewrite Hlat, Hlng.
    cbn [nullable Number_isFinite]. rewrite Ha, Hfa. simpl.
    split; [apply list_elem_of_here|done].
Qed.

(** The Website link of a record whose website is a text opens a URL that
    starts with "http": the text itself when it starts so, the text behind
    "https://" otherwise.  A website that is a number or [true] makes the
    handler throw when the link is pressed. *)
Theorem website_link_opens_http_url (item : CanonicalRecord) :
  (∀ s, website item = VString s → s ≠ "" →
        ∃ url, websiteLink (renderItem item) = inr (Ok url) ∧
               startsWith url "http" = true ∧
               (startsWith s "http" = true → url = s) ∧
               (startsWith s "http" = false → url = "https://" +:+ s)) ∧
  (ToBoolean (website item) = true → isString (website item) = false →
   websiteLink (renderItem item) = inr Throw) ∧
  (ToBoolean (website item) = false →
   websiteLink (renderItem item) = inl (VBoolean false)).
Proof.
  unfold renderItem, guarded; cbn [websiteLink]. split; [|split].
  - intros s Hw Hs. rewrite Hw. unfold websiteUrl.
    assert (ToBoolean (VBoolean (ToBoolean (VString s))) = true) as -> by by destruct s.
    destruct (startsWith s "http") eqn:Hh.
    + exists s. by rewrite Hh.
    + exists ("https://" +:+ s). split; [done|]. split; [|by split].
      apply StringFacts.startsWith_spec. by exists ("s://" +:+ s).
  - intros Ht Hs. rewrite Ht. simpl. by destruct (website item).
  - intros ->. done.
Qed.

(** ** The further properties at the sample data *)

Lemma sample_records : cleaned [rowA; rowB] = [cleanRow rowA 0; cleanRow rowB 1].
Proof. reflexivity. Defined.

Lemma sample_rows_are_text : Forall textRow [rowA; rowB].
Proof. repeat constructor; apply (bool_decide_unpack _); vm_compute; exact I. Defined.

Lemma import_success_replaces_witness :
  pickAndParseExcel delivering {| data := []; error := Some failureMessage |}
  = {| data := cleaned [rowA; rowB]; error := None |} ∧
  length (data (pickAndParseExcel delivering {| data := []; error := Some failureMessage |}))
  = length [rowA; rowB] ∧
  App_banner (pickAndParseExcel delivering {| data := []; error := Some failureMessage |}) = false.
Proof.
  apply (import_success_replaces delivering _ [rowA; rowB]).
  unfold importYields. do 5 eexists. repeat split; reflexivity.
Defined.

Lemma import_dismissed_clears_error_witness :
  pickAndParseExcel dismissed {| data := cleaned [rowA]; error := Some failureMessage |}
  = {| data := cleaned [rowA]; error := None |}.
Proof.
  apply (import_dismissed_clears_error dismissed
           {| data := cleaned [rowA]; error := Some failureMessage |}).
  unfold importDismissed. eexists. split; [reflexivity|]. left. reflexivity.
Defined.

Lemma import_throw_keeps_data_witness :
  pickAndParseExcel pickerFails {| data := cleaned [rowA]; error := None |}
  = {| data := cleaned [rowA]; error := Some failureMessage |}.
Proof.
  apply (import_throw_keeps_data pickerFails {| data := cleaned [rowA]; error := None |}).
  left. reflexivity.
Defined.

Lemma map_shows_geocoded_of_table_witness :
  MapScreen_filtered (cleaned [rowA; rowB]) "x"
  = Ok (MapScreen_geocoded (cleaned [rowA; rowB])) ∧
  MapScreen_geocoded (cleaned [rowA; rowB]) `sublist_of` cleaned [rowA; rowB].
Proof.
  apply (map_shows_geocoded_of_table (cleaned [rowA; rowB]) (cleaned [rowA; rowB]) "x").
  reflexivity.
Defined.

Lemma search_finds_field_text_witness : cleanRow rowB 1 ∈ [cleanRow rowB 1].
Proof.
  apply (search_finds_field_text (cleaned [rowA; rowB]) [cleanRow rowB 1]
           (cleanRow rowB 1) "b").
  - reflexivity.
  - rewrite sample_records. apply list_elem_of_further, list_elem_of_here.
  - apply (list_elem_of_here (VString "b")).
Defined.

Lemma search_ignores_case_and_padding_witness :
  TableScreen_filtered (cleaned [rowA; rowB]) (" " +:+ toLowerCase "B" +:+ "  ")
  = TableScreen_filtered (cleaned [rowA; rowB]) "B" ∧
  MapScreen_filtered (cleaned [rowA; rowB]) (" " +:+ toLowerCase "B" +:+ "  ")
  = MapScreen_filtered (cleaned [rowA; rowB]) "B".
Proof.
  apply (search_ignores_case_and_padding (cleaned [rowA; rowB]) "B" " " "  ");
    simpl; repeat split; reflexivity.
Defined.

Lemma text_sheet_search_returns_witness :
  ∃ lt, TableScreen_filtered (cleaned [rowA; rowB]) "x" = Ok lt ∧
        MapScreen_filtered (cleaned [rowA; rowB]) "x" = Ok (MapScreen_geocoded lt).
Proof. apply (text_sheet_search_returns [rowA; rowB] "x"). exact sample_rows_are_text. Defined.

Lemma markers_have_finite_coordinates_witness :
  length (MapScreen_markers [cleanRow rowA 0]) = length [cleanRow rowA 0] ∧
  Forall (λ m, ∃ a b, latitude (coordinate m) = Some a ∧ longitude (coordinate m) = Some b ∧
                      isFinite a = true ∧ isFinite b = true)
         (MapScreen_markers [cleanRow rowA 0]).
Proof.
  apply (markers_have_finite_coordinates (cleaned [rowA; rowB]) [cleanRow rowA 0] "x").
  reflexivity.
Defined.

Lemma imported_geocoded_iff_not_null_witness :
  cleanRow rowA 0 ∈ MapScreen_geocoded (cleaned [rowA; rowB]) ↔
  lat (cleanRow rowA 0) ≠ None ∧ lng (cleanRow rowA 0) ≠ None.
Proof.
  apply (imported_geocoded_iff_not_null [rowA; rowB] (cleanRow rowA 0)).
  rewrite sample_records. apply list_elem_of_here.
Defined.

Lemma unknown_headers_are_ignored_witness :
  cleanRow (<["Rating" := VString "5"]> rowA) 0 = cleanRow rowA 0 ∧
  cleanRow (delete "Rating" rowA) 0 = cleanRow rowA 0.
Proof.
  apply (unknown_headers_are_ignored rowA 0 "Rating" (VString "5")).
  apply (bool_decide_unpack _). vm_compute. exact I.
Defined.

Lemma decimal_comma_reads_as_point_witness :
  safeFloat (VString ("45" +:+ "," +:+ "12")) = safeFloat (VString ("45" +:+ "." +:+ "12")).
Proof. apply (decimal_comma_reads_as_point "45" "12"); simpl; repeat split; discriminate. Defined.

Lemma coordinate_ignores_leading_blanks_witness :
  safeFloat (VString ("  " +:+ "45.12")) = safeFloat (VString "45.12").
Proof. apply (coordinate_ignores_leading_blanks "  " "45.12"). simpl. repeat split. Defined.

Lemma coordinate_only_from_text_or_finite_number_witness :
  (∃ s, VString "1,5" = VString s) ∨ (∃ m, VString "1,5" = VNumber m ∧ isFinite m = true).
Proof.
  apply (coordinate_only_from_text_or_finite_number (VString "1,5") (ofDecimal false 15 (-1))).
  reflexivity.
Defined.

(** * The search over Unicode text *)

(** ** Text *)

Section TextFacts.

Import Unicode.

Lemma startsWith_text_spec (s q : text) :
  startsWith s q = true ↔ ∃ post, s = q ++ post.
Proof.
  revert s. induction q as [|c q IH]; intros s; simpl.
  - split; [intros _; by exists s|done].
  - destruct s as [|d s].
    + split; [done|]. by intros [post H].
    + rewrite andb_true_iff, N.eqb_eq, IH. split.
      * intros [-> [post ->]]. by exists post.
      * intros [post [= -> ->]]. split; [done|by exists post].
Qed.

Lemma includes_text_spec (s q : text) :
  includes s q = true ↔ substring_of q s.
Proof.
  unfold substring_of. induction s as [|d s IH]; simpl.
  - rewrite orb_false_r, startsWith_text_spec. split.
    + intros [post H]. by exists [], post.
    + intros (pre & post & H). symmetry in H.
      apply app_eq_nil in H as [-> H]. by exists post.
  - rewrite orb_true_iff, startsWith_text_spec, IH. split.
    + intros [[post H]|(pre & post & H)].
      * by exists [], post.
      * exists (d :: pre), post. by rewrite H.
    + intros (pre & post & H). destruct pre as [|c pre].
      * left. by exists post.
      * right. injection H as -> H. by exists pre, post.
Qed.

Lemma text_substring_nil (s : text) : substring_of [] s.
Proof. by exists [], s. Qed.


Lemma text_substring_trans (a b c : text) :
  substring_of a b → substring_of b c → substring_of a c.
Proof.
  intros (p1 & s1 & ->) (p2 & s2 & ->).
  exists (p2 ++ p1), (s1 ++ s2). by rewrite <- !(assoc_L (++)).
Qed.

Lemma text_substring_elem (a b : text) (c : N) :
  substring_of a b → c ∉ b → c ∉ a.
Proof. intros (pre & post & ->) Hc Ha. apply Hc. set_solver. Qed.

Lemma text_trimStart_split (s : text) :
  ∃ w, s = w ++ trimStart s ∧ blank w ∧
       (trimStart s = [] ∨ ∃ c t, trimStart s = c :: t ∧ isWhiteSpace c = false).
Proof.
  induction s as [|c s (w & Hs & Hw & Hh)]; simpl.
  - exists []. repeat split; [constructor|by left].
  - destruct (isWhiteSpace c) eqn:Hc.
    + exists (c :: w). rewrite <- app_comm_cons, <- Hs. repeat split; [by constructor|done].
    + exists []. repeat split; [constructor|]. right. eauto.
Qed.

Lemma text_trimEnd_split (s : text) :
  ∃ w, s = trimEnd s ++ w ∧ blank w ∧
       (trimEnd s = [] ∨ ∃ t c, trimEnd s = t ++ [c] ∧ isWhiteSpace c = false).
Proof.
  induction s as [|c s (w & Hs & Hw & Hh)]; simpl.
  - exists []. repeat split; [constructor|by left].
  - destruct (trimEnd s) as [|d t] eqn:Ht.
    + destruct (isWhiteSpace c) eqn:Hc.
      * exists (c :: w). simpl in *. subst s. repeat split; [by constructor|by left].
      * exists w. simpl in Hs. subst s. repeat split; [done|].
        right. by exists [], c.
    + exists w. split; [simpl; by f_equal|]. split; [done|]. right.
      destruct Hh as [?|(t' & e & Ht' & He)]; [done|].
      exists (c :: t'), e. by rewrite Ht'.
Qed.

Lemma text_trimEnd_head (s : text) (c : N) (t : text) :
  trimEnd s = c :: t → ∃ s', s = c :: s'.
Proof.
  destruct s as [|d s]; simpl; [done|].
  destruct (trimEnd s); [destruct (isWhiteSpace d)|]; intros [= -> _]; eauto.
Qed.

(** A trimmed text is empty, or begins and ends with a code point that is
    not white space. *)
Lemma text_trim_split (s : text) :
  ∃ w1 w2, s = w1 ++ trim s ++ w2 ∧ blank w1 ∧ blank w2 ∧
    (trim s = [] ∨
     (∃ c t, trim s = c :: t ∧ isWhiteSpace c = false) ∧
     (∃ t c, trim s = t ++ [c] ∧ isWhiteSpace c = false)).
Proof.
  unfold trim.
  destruct (text_trimStart_split s) as (w1 & Hs & Hw1 & Hh).
  destruct (text_trimEnd_split (trimStart s)) as (w2 & Hs2 & Hw2 & Hl).
  exists w1, w2. rewrite <- Hs2. repeat split; [done..|].
  destruct (trimEnd (trimStart s)) as [|c t] eqn:Ht; [by left|right].
  split; [|destruct Hl as [?|?]; done].
  destruct (text_trimEnd_head _ _ _ Ht) as [s' Hs'].
  destruct Hh as [Hh|(c' & t' & Hh & Hc)]; rewrite Hh in Hs'; [done|].
  injection Hs' as -> _. eauto.
Qed.

Lemma text_skip_blank_l (t w y : text) :
  blank w → (∃ c t', t = c :: t' ∧ isWhiteSpace c = false) →
  substring_of t (w ++ y) → substring_of t y.
Proof.
  intros Hw (c & t' & -> & Hc). induction Hw as [|d w Hd Hw IH]; [done|].
  intros (pre & post & H). destruct pre as [|e pre].
  - injection H as -> _. congruence.
  - injection H as _ H. apply IH. by exists pre, post.
Qed.

Lemma text_skip_blank_r (t w y : text) :
  blank w → (∃ t' c, t = t' ++ [c] ∧ isWhiteSpace c = false) →
  substring_of t (y ++ w) → substring_of t y.
Proof.
  intros Hw (t' & c & -> & Hc) (pre & post & H).
  rewrite (assoc_L (++)) in H.
  apply app_eq_app in H as [k [[-> Hk]|[Hk ->]]].
  - exists pre, k. by rewrite <- !(assoc_L (++)).
  - destruct (decide (k = [])) as [->|Hne].
    + rewrite app_nil_r in Hk. exists pre, []. by rewrite app_nil_r.
    + destruct (exists_last Hne) as (k' & d & ->).
      rewrite !(assoc_L (++)) in Hk. apply app_inj_tail in Hk as [_ ->].
      unfold blank in Hw. rewrite !Forall_app, Forall_singleton in Hw.
      destruct Hw as [[_ Hd] _]. congruence.
Qed.

(** Trimming both texts keeps the substring relation. *)
Lemma text_substring_trim (q1 q2 : text) :
  substring_of q1 q2 → substring_of (trim q1) (trim q2).
Proof.
  intros H.
  destruct (text_trim_split q1) as (a1 & b1 & H1 & _ & _ & [->|[Hhd Hlast]]);
    [apply text_substring_nil|].
  destruct (text_trim_split q2) as (a2 & b2 & H2 & Ha2 & Hb2 & _).
  assert (substring_of (trim q1) q2) as Hin.
  { eapply text_substring_trans; [|exact H]. by exists a1, b1. }
  rewrite H2 in Hin.
  apply text_skip_blank_l in Hin; [|done..].
  by apply text_skip_blank_r in Hin.
Qed.

Lemma text_trim_substring (s : text) : substring_of (trim s) s.
Proof. destruct (text_trim_split s) as (w1 & w2 & Hs & _). by exists w1, w2. Qed.

(** ** Lower case *)

(** Away from the capital sigma the conversion goes code point by code
    point. *)
Lemma lowerFrom_plain (T : CaseTables) (before s : text) :
  capitalSigma ∉ s → lowerFrom T before s = flat_map (lowerOf T) s.
Proof.
  revert before. induction s as [|c s IH]; intros before Hs; [done|].
  apply not_elem_of_cons in Hs as [Hc Hs]. simpl.
  assert ((c =? capitalSigma)%N = false) as -> by (apply N.eqb_neq; congruence).
  simpl. by rewrite IH.
Qed.

Lemma toLowerCase_plain (T : CaseTables) (s : text) :
  capitalSigma ∉ s → toLowerCase T s = flat_map (lowerOf T) s.
Proof. apply lowerFrom_plain. Qed.

(** So a text without capital sigma keeps its substrings when it is
    lower-cased. *)
Lemma text_substring_toLowerCase (T : CaseTables) (a b : text) :
  capitalSigma ∉ b → substring_of a b →
  substring_of (toLowerCase T a) (toLowerCase T b).
Proof.
  intros Hb Hab. pose proof (text_substring_elem _ _ _ Hab Hb) as Ha.
  rewrite !toLowerCase_plain by done.
  destruct Hab as (pre & post & ->).
  exists (flat_map (lowerOf T) pre), (flat_map (lowerOf T) post).
  by rewrite !flat_map_app.
Qed.

(** What the filter compares: the query after trimming and lower-casing. *)
Lemma lowered_query_substring (T : CaseTables) (q1 q2 : text) :
  substring_of q1 q2 → capitalSigma ∉ q2 →
  substring_of (toLowerCase T (trim q1)) (toLowerCase T (trim q2)).
Proof.
  intros Hq Hs. apply text_substring_toLowerCase; [|by apply text_substring_trim].
  eapply text_substring_elem; [apply text_trim_substring|done].
Qed.

End TextFacts.

(** ** The filter *)

Section TextSearch.

Import Unicode.

Variable T : CaseTables.

Lemma lowerIncludes_text_searchable (q : text) (v : value) :
  searchable v → lowerIncludes T q v = Ok (includes (toLowerCase T (fieldText v)) q).
Proof.
  unfold lowerIncludes, or. intros [[s ->]|Hf].
  - by destruct s.
  - rewrite Hf. destruct v as [| |b|n|s]; try done. by destruct s.
Qed.

(** The test returns only on a value the search can read. *)
Lemma lowerIncludes_text_inv (q : text) (v : value) (b : bool) :
  lowerIncludes T q v = Ok b →
  searchable v ∧ b = includes (toLowerCase T (fieldText v)) q.
Proof.
  intros H. assert (searchable v) as Hv.
  { unfold lowerIncludes, or in H.
    destruct v as [| |[]|[]|s]; try discriminate H; (by left; eexists) || (by right). }
  rewrite lowerIncludes_text_searchable in H by done. by injection H as <-.
Qed.


Lemma some_text_matchb (q : text) (r : SearchedRecord) (b : bool) :
  some (lowerIncludes T q) [name r; city r; cuisine r; state r; country r] = Ok b →
  b = matchb T q r.
Proof. apply some_inv. intros v c H. by apply lowerIncludes_text_inv in H as [_ ->]. Qed.

Lemma includes_text_mono (s a b : text) :
  substring_of a b → includes s b = true → includes s a = true.
Proof.
  intros Hab H. apply includes_text_spec.
  eapply text_substring_trans; [exact Hab|]. by apply includes_text_spec.
Qed.


Lemma matchb_text_nil (r : SearchedRecord) : matchb T [] r = true.
Proof.
  unfold matchb. simpl.
  by rewrite (proj2 (includes_text_spec _ []) (text_substring_nil _)).
Qed.

Lemma matchb_text_mono (a b : text) (r : SearchedRecord) :
  substring_of a b → matchb T b r = true → matchb T a r = true.
Proof.
  unfold matchb. rewrite !existsb_exists. intros Hab (v & Hv & H).
  exists v. split; [done|]. by apply (includes_text_mono _ a b).
Qed.


(** Whenever the memo returns, it returned that filter. *)
Lemma TableScreen_filtered_text_inv (data l : list SearchedRecord) (search : text) :
  TableScreen_filtered T data search = Ok l →
  l = List.filter (matchb T (toLowerCase T (trim search))) data.
Proof.
  unfold TableScreen_filtered. case_bool_decide as Hq.
  - intros [= <-]. rewrite Hq. symmetry. apply filter_all, Forall_forall.
    intros r _. apply matchb_text_nil.
  - apply filterE_inv. intros r c. apply some_text_matchb.
Qed.


(** A search that returns on a collection returns on each part of it. *)
Lemma TableScreen_filtered_text_part
  (data part l : list SearchedRecord) (search : text) :
  TableScreen_filtered T data search = Ok l → part ⊆ data →
  TableScreen_filtered T part search
  = Ok (List.filter (matchb T (toLowerCase T (trim search))) part).
Proof.
  intros Hl Hpart.
  assert (∃ l', TableScreen_filtered T part search = Ok l') as [l' Hl'].
  { revert Hl. unfold TableScreen_filtered. case_bool_decide; [eauto|].
    intros Hl%filterE_each. apply filterE_of_each.
    rewrite Forall_forall in Hl. apply Forall_forall. intros r Hr. by apply Hl, Hpart. }
  rewrite Hl'. f_equal. by apply TableScreen_filtered_text_inv.
Qed.

(** The two queries as the filter compares them. *)
Lemma lowered_queries (q1 q2 : text) :
  substring_of q1 q2 →
  capitalSigma ∉ q2 ∨ substring_of (toLowerCase T (trim q1)) (toLowerCase T (trim q2)) →
  substring_of (toLowerCase T (trim q1)) (toLowerCase T (trim q2)).
Proof. intros Hq [Hs|H]; [by apply lowered_query_substring|done]. Qed.

End TextSearch.



(** The two searches of the counterexample, and the texts they compare. *)
Example sigma_search_at_gyros :
  Unicode.toLowerCase Unicode.latinAndGreek Unicode.gyros = [947; 965; 961; 959; 962]%N ∧
  Unicode.toLowerCase Unicode.latinAndGreek [Unicode.capitalSigma] = [Unicode.smallSigma] ∧
  Unicode.TableScreen_filtered Unicode.latinAndGreek [Unicode.gyrosRecord] Unicode.gyros
  = Ok [Unicode.gyrosRecord] ∧
  Unicode.TableScreen_filtered Unicode.latinAndGreek [Unicode.gyrosRecord]
    [Unicode.capitalSigma] = Ok [].
Proof. by vm_compute. Qed.

(** Typing on narrows the list that is shown, as long as lower-casing keeps
    the shorter query inside the longer one: with [q1] a substring of [q2],
    searching [q2] among the records found for [q1] gives what searching
    [q2] in the whole collection gives. *)
Theorem search_narrows_previous_result
  (T : Unicode.CaseTables) (data l1 l2 : list Unicode.SearchedRecord)
  (q1 q2 : Unicode.text) :
  Unicode.substring_of q1 q2 →
  Unicode.capitalSigma ∉ q2 ∨
  Unicode.substring_of (Unicode.toLowerCase T (Unicode.trim q1))
                       (Unicode.toLowerCase T (Unicode.trim q2)) →
  Unicode.TableScreen_filtered T data q1 = Ok l1 →
  Unicode.TableScreen_filtered T data q2 = Ok l2 →
  Unicode.TableScreen_filtered T l1 q2 = Ok l2.
Proof.
  intros Hq Hs H1 H2. pose proof (lowered_queries T _ _ Hq Hs) as Hl.
  pose proof (TableScreen_filtered_text_inv _ _ _ _ H1) as ->.
  pose proof (TableScreen_filtered_text_inv _ _ _ _ H2) as ->.
  rewrite (TableScreen_filtered_text_part T data _ _ q2 H2).
  - f_equal. apply filter_absorb. intros r. by apply matchb_text_mono.
  - intros r Hr. apply list_elem_of_In, filter_In in Hr as [Hr _]. by apply list_elem_of_In.
Qed.

(** ** Text below U+0100 *)

Section Latin1.

Import StringFacts.

Lemma ofString_cons (c : ascii) (s : string) :
  Unicode.ofString (String c s) = N_of_ascii c :: Unicode.ofString s.
Proof. reflexivity. Qed.

Lemma ofString_nil_inv (s : string) : Unicode.ofString s = [] → s = "".
Proof. by destruct s. Qed.

Lemma N_of_ascii_inj (c d : ascii) : N_of_ascii c = N_of_ascii d → c = d.
Proof. intros H. by rewrite <- (ascii_N_embedding c), <- (ascii_N_embedding d), H. Qed.

Lemma isWhiteSpace_latin1 (c : ascii) :
  Unicode.isWhiteSpace (N_of_ascii c) = isWhiteSpace c.
Proof. by destruct c as [[] [] [] [] [] [] [] []]. Qed.

Lemma trimStart_latin1 (s : string) :
  Unicode.trimStart (Unicode.ofString s) = Unicode.ofString (trimStart s).
Proof.
  induction s as [|c s IH]; [done|]. rewrite ofString_cons. simpl.
  rewrite isWhiteSpace_latin1. by destruct (isWhiteSpace c).
Qed.

Lemma trimEnd_latin1 (s : string) :
  Unicode.trimEnd (Unicode.ofString s) = Unicode.ofString (trimEnd s).
Proof.
  induction s as [|c s IH]; [done|]. rewrite ofString_cons. simpl.
  rewrite IH, isWhiteSpace_latin1.
  destruct (trimEnd s); simpl; [by destruct (isWhiteSpace c)|done].
Qed.

Lemma trim_latin1 (s : string) :
  Unicode.trim (Unicode.ofString s) = Unicode.ofString (trim s).
Proof. unfold Unicode.trim, trim. by rewrite trimStart_latin1, trimEnd_latin1. Qed.

Lemma startsWith_latin1 (s q : string) :
  Unicode.startsWith (Unicode.ofString s) (Unicode.ofString q) = startsWith s q.
Proof.
  revert s. induction q as [|c q IH]; intros s; [done|].
  destruct s as [|d s]; [done|]. rewrite !ofString_cons. simpl.
  rewrite IH. case_decide as Hcd.
  - subst. by rewrite N.eqb_refl.
  - destruct (N.eqb_spec (N_of_ascii c) (N_of_ascii d)) as [H%N_of_ascii_inj|]; done.
Qed.

Lemma includes_latin1 (s q : string) :
  Unicode.includes (Unicode.ofString s) (Unicode.ofString q) = includes s q.
Proof.
  induction s as [|d s IH].
  - simpl. by rewrite <- (startsWith_latin1 "" q).
  - rewrite ofString_cons. simpl. rewrite <- IH, <- ofString_cons.
    by rewrite startsWith_latin1.
Qed.

(** No code point below U+0100 is the capital sigma, so lower-casing goes
    letter by letter there. *)
Lemma toLowerCase_latin1 (T : Unicode.CaseTables) (s : string) :
  latin1Tables T →
  Unicode.toLowerCase T (Unicode.ofString s) = Unicode.ofString (toLowerCase s).
Proof.
  intros HT. unfold Unicode.toLowerCase. generalize (@nil N).
  induction s as [|c s IH]; intros before; [done|].
  rewrite ofString_cons. simpl.
  assert ((N_of_ascii c =? Unicode.capitalSigma)%N = false) as ->.
  { apply N.eqb_neq. pose proof (N_ascii_bounded c). unfold Unicode.capitalSigma. lia. }
  simpl. by rewrite HT, IH.
Qed.

Lemma latinAndGreek_latin1 : latin1Tables Unicode.latinAndGreek.
Proof. intros c. by destruct c as [[] [] [] [] [] [] [] []]. Qed.

Lemma lowerIncludes_latin1 (T : Unicode.CaseTables) (q : string) (v : value) :
  latin1Tables T →
  Unicode.lowerIncludes T (Unicode.ofString q) (unicodeValue v) = lowerIncludes q v.
Proof.
  intros HT. unfold Unicode.lowerIncludes, lowerIncludes, Unicode.or, JSValue.or.
  assert (∀ s, Ok (Unicode.includes (Unicode.toLowerCase T (Unicode.ofString s))
                                    (Unicode.ofString q))
               = Ok (includes (toLowerCase s) q)) as Hs.
  { intros s. by rewrite toLowerCase_latin1, includes_latin1. }
  destruct v as [| |b|n|s].
  - apply (Hs "").
  - apply (Hs "").
  - destruct b; [done|apply (Hs "")].
  - destruct n; (done || apply (Hs "")).
  - destruct s as [|c s]; [apply (Hs "")|apply (Hs (String c s))].
Qed.

Lemma filterE_fmap {A B} (g : A → B) (f : B → result bool) (f' : A → result bool)
    (l : list A) :
  (∀ x, f (g x) = f' x) →
  filterE f (g <$> l)
  = match filterE f' l with Ok l' => Ok (g <$> l') | Throw => Throw end.
Proof.
  intros Hf. induction l as [|x l IH]; [done|].
  rewrite fmap_cons. simpl. rewrite Hf, IH.
  destruct (f' x) as [[]|]; simpl; [destruct (filterE f' l); done..|done].
Qed.

(** On text below U+0100 the search over Unicode text is the search of the
    table screen. *)
Lemma TableScreen_filtered_latin1
    (T : Unicode.CaseTables) (data : list CanonicalRecord) (search : string) :
  latin1Tables T →
  Unicode.TableScreen_filtered T (unicodeRecord <$> data) (Unicode.ofString search)
  = match TableScreen_filtered data search with
    | Ok l => Ok (unicodeRecord <$> l)
    | Throw => Throw
    end.
Proof.
  intros HT. unfold Unicode.TableScreen_filtered, TableScreen_filtered.
  rewrite trim_latin1, toLowerCase_latin1 by done.
  case_bool_decide as H1; case_bool_decide as H2.
  - done.
  - by apply ofString_nil_inv in H1.
  - by rewrite H2 in H1.
  - apply filterE_fmap. intros r. simpl.
    by rewrite !lowerIncludes_latin1.
Qed.

End Latin1.

(** ** At sample data *)


Lemma search_narrows_previous_result_witness :
  Unicode.TableScreen_filtered Unicode.latinAndGreek
    [Unicode.pizzaRoma; Unicode.pizzeria] (Unicode.ofString "Pizza")
  = Ok [Unicode.pizzaRoma].
Proof.
  assert (Unicode.capitalSigma ∉ Unicode.ofString "Pizza") as Hs
    by (apply (bool_decide_unpack _); vm_compute; exact I).
  apply (search_narrows_previous_result Unicode.latinAndGreek
           [Unicode.pizzaRoma; Unicode.pizzeria; Unicode.sushiBar]
           [Unicode.pizzaRoma; Unicode.pizzeria] [Unicode.pizzaRoma]
           (Unicode.ofString "izz") (Unicode.ofString "Pizza")
           (ex_intro _ (Unicode.ofString "P") (ex_intro _ (Unicode.ofString "a") eq_refl))
           (or_introl Hs));
    reflexivity.
Defined.
